(** * Ticker enrichment: alias learning, bulk apply, risk and commit preview

    A shallow embedding of the decision logic of [frontend/src/App.tsx]:
    the alias boost applied to a preview response ([onChooseFile]), the
    override handlers ([setOverrideForRow], [bulkApplyTopCandidates]), the
    risk classifier ([riskOf]) and the commit preview ([openCommitPreview]).

    Conventions of the embedding.
    - A JavaScript [number] is an IEEE 754 binary64 value: [float], with
      the kernel's primitive operations.  [typeof x === "number"] is
      [Some _] of an [option float]; [undefined] and [null] are [None].
    - A JavaScript string is modelled where all its characters are ASCII
      ([isASCII]): on such strings [toUpperCase], [toLowerCase] and [trim]
      of the language are the maps below on the letters a-z and A-Z and
      on the six ASCII white-space characters.  What the language does
      with other characters (the sharp s, which [toUpperCase] turns into
      two letters, the no-break space, which [trim] removes) is not
      modelled; a statement that rests on a property of these maps says
      that its strings are ASCII.
    - A plain object used as a dictionary ([Record<K, V>]) is a [gmap] of
      its own keys.  A read [obj[k]] with a string key also answers the
      names inherited from [Object.prototype] ([getProperty]); a key that
      is a number never is such a name.
    - React state is one record, [AppState]; a handler is a function from
      the state it was called in to the state after its updates. *)

From Stdlib Require Import ZArith Floats Lia List Permutation Sorted String Ascii.
From stdpp Require Import base option list gmap strings.

Set Warnings "-inexact-float".
Local Open Scope string_scope.

(** ** Numbers *)

(** [Math.min(a, b)]: NaN if either argument is NaN, and [-0] is below [+0]. *)
Definition Math_min (a b : float) : float :=
  if (PrimFloat.is_nan a || PrimFloat.is_nan b)%bool then PrimFloat.nan
  else if PrimFloat.ltb a b then a
  else if PrimFloat.ltb b a then b
  else if PrimFloat.get_sign a then a else b.

(** [x >= y] and [x > y] on numbers. *)
Definition geb (x y : float) : bool := PrimFloat.leb y x.
Definition gtb (x y : float) : bool := PrimFloat.ltb y x.

(** The value of a binary64 number, in units of [2^-1074] (the least
    subnormal), so that it is an integer; the infinities stand beyond every
    finite value.  Only the order lemmas below read it. *)
Definition infValue : Z := (2 ^ 2100)%Z.

Definition magnitude (m : positive) (e : Z) : Z := (Z.pos m * 2 ^ (e + 1074))%Z.

Definition SFvalue (x : spec_float) : Z :=
  match x with
  | S754_zero _ => 0%Z
  | S754_nan => 0%Z
  | S754_infinity s => cond_Zopp s infValue
  | S754_finite s m e => cond_Zopp s (magnitude m e)
  end.

Definition value (x : float) : Z := SFvalue (Prim2SF x).

(** A result that is neither zero nor NaN and carries the sign [s]. *)
Definition signedNonzero (s : bool) (r : spec_float) : Prop :=
  match r with
  | S754_finite s' _ _ | S754_infinity s' => s' = s
  | _ => False
  end.

(** ** Strings *)

Definition isLower (c : ascii) : bool :=
  ((97 <=? nat_of_ascii c) && (nat_of_ascii c <=? 122))%nat.

Definition isUpper (c : ascii) : bool :=
  ((65 <=? nat_of_ascii c) && (nat_of_ascii c <=? 90))%nat.

Definition upperChar (c : ascii) : ascii :=
  if isLower c then ascii_of_nat (nat_of_ascii c - 32) else c.

Definition lowerChar (c : ascii) : ascii :=
  if isUpper c then ascii_of_nat (nat_of_ascii c + 32) else c.

Fixpoint mapString (f : ascii -> ascii) (s : string) : string :=
  match s with
  | EmptyString => EmptyString
  | String c s' => String (f c) (mapString f s')
  end.

Definition toUpperCase : string -> string := mapString upperChar.
Definition toLowerCase : string -> string := mapString lowerChar.

(** Tab, line feed, vertical tab, form feed, carriage return and space. *)
Definition isWhiteSpace (c : ascii) : bool :=
  let n := nat_of_ascii c in
  (((9 <=? n) && (n <=? 13)) || (n =? 32))%nat.

Fixpoint trimStart (s : string) : string :=
  match s with
  | EmptyString => EmptyString
  | String c s' => if isWhiteSpace c then trimStart s' else s
  end.

Fixpoint trimEnd (s : string) : string :=
  match s with
  | EmptyString => EmptyString
  | String c s' =>
      match trimEnd s' with
      | EmptyString => if isWhiteSpace c then EmptyString else String c EmptyString
      | t => String c t
      end
  end.

Definition trim (s : string) : string := trimEnd (trimStart s).

(** The strings the model speaks of: every character is below 128. *)
Fixpoint isASCII (s : string) : bool :=
  match s with
  | EmptyString => true
  | String c s' => (nat_of_ascii c <? 128)%nat && isASCII s'
  end.

(** [s.includes(q)] *)
Fixpoint includes (s q : string) : bool :=
  String.prefix q s ||
  match s with
  | EmptyString => false
  | String _ s' => includes s' q
  end.

(** Truthiness of a string: only the empty string is falsy. *)
Definition truthy (s : string) : bool :=
  match s with EmptyString => false | _ => true end.

(** Truthiness of a possibly missing string. *)
Definition truthyOpt (o : option string) : bool :=
  match o with Some s => truthy s | None => false end.

(** [a ?? b] *)
Definition nullish {A} (a : option A) (b : option A) : option A :=
  match a with Some _ => a | None => b end.

(** [const norm = (s) => (s ?? "").toString().trim().toLowerCase()],
    on ASCII strings. *)
Definition norm (s : option string) : string :=
  toLowerCase (trim (default "" s)).

(** ** Plain objects read as dictionaries *)

(** The names every plain object inherits from [Object.prototype]. *)
Definition objectPrototypeKeys : list string :=
  [ "constructor"; "__defineGetter__"; "__defineSetter__"; "hasOwnProperty";
    "__lookupGetter__"; "__lookupSetter__"; "isPrototypeOf";
    "propertyIsEnumerable"; "toString"; "valueOf"; "__proto__";
    "toLocaleString" ].

(** What [obj[k]] answers on a [Record<string, string>]: the string under
    the own key [k]; else, for an inherited name, a function (for
    [__proto__], the prototype object), which is truthy, is no string and
    has no [toUpperCase]; else [undefined]. *)
Inductive Property :=
  | OwnString (s : string)
  | Inherited
  | Undefined.

Definition getProperty (obj : gmap string string) (k : string) : Property :=
  match obj !! k with
  | Some s => OwnString s
  | None => if bool_decide (k ∈ objectPrototypeKeys) then Inherited else Undefined
  end.

(** ** Types *)

Record Candidate := {
  cand_symbol : string;
  cand_name : string;
  cand_type : option string;
  cand_score : option float;
  cand_source : option string
}.

Record RowInput := {
  in_Name : option string;
  in_Symbol : option string
}.

(** A row as the preview endpoint sends it: [index] and [candidates] may be
    missing ([r.index ?? i], [r.candidates || []]). *)
Record ServerRow := {
  srv_index : option nat;
  srv_status : string;
  srv_candidates : option (list Candidate);
  srv_notes : option string;
  srv_input : option RowInput;
  srv_Name : option string;
  srv_Symbol : option string;
  srv_proposed : option string
}.

(** [status] is [PreviewStatus | string]: unexpected server values are
    tolerated, so it is a string compared with the literals below. *)
Record PreviewRow := {
  row_index : nat;
  row_status : string;
  row_candidates : option (list Candidate);
  row_notes : option string;
  row_input : option RowInput;
  row_Name : option string;
  row_Symbol : option string;
  row_proposed : option string
}.

Definition FILLED : string := "FILLED".
Definition AMBIGUOUS : string := "AMBIGUOUS".
Definition NOT_FOUND : string := "NOT_FOUND".
Definition UNCHANGED : string := "UNCHANGED".
Definition ENRICHED : string := "ENRICHED".

Inductive RiskLevel := HIGH | MEDIUM | LOW.

Record PendingChange := {
  pc_index : nat;
  pc_name : string;
  pc_fromSymbol : string;
  pc_toSymbol : string;
  pc_score : option float;
  pc_source : option string;
  pc_risk : RiskLevel
}.

Inductive LogKind := step | info | success | warn | error.

(** The text of a log line, before it is rendered. *)
Inductive LogText :=
  | ClearedOverride (rowIndex : nat)
  | OverrideSet (rowIndex : nat) (value : string)
  | BulkApplied (changed : nat) (minScore : float)
  | AliasesApplied (applied : nat)
  | PreviewFailed.

Record LogEntry := {
  log_id : string;
  log_ts : string;
  log_kind : LogKind;
  log_text : LogText
}.

Inductive Toast :=
  | SelectFileFirst
  | BulkAppliedToast (changed : nat)
  | PreviewReady
  | PreviewFailedToast.

(** The state of [App].  [clock] and [entropy] are what the environment
    answers to [new Date().toLocaleTimeString()] and to [makeId()]. *)
Record AppState := {
  statusFilter : string;
  qDebounced : string;
  aliases : gmap string string;
  appliedAliasCount : nat;
  rows : list PreviewRow;
  overrides : gmap nat string;
  logs : list LogEntry;
  bulkMinScore : float;
  pendingChanges : list PendingChange;
  commitPreviewOpen : bool;
  toasts : list Toast;
  clock : string;
  entropy : string
}.

Definition setRows (v : list PreviewRow) (st : AppState) : AppState :=
  {| statusFilter := statusFilter st; qDebounced := qDebounced st;
     aliases := aliases st; appliedAliasCount := appliedAliasCount st;
     rows := v; overrides := overrides st; logs := logs st;
     bulkMinScore := bulkMinScore st; pendingChanges := pendingChanges st;
     commitPreviewOpen := commitPreviewOpen st; toasts := toasts st;
     clock := clock st; entropy := entropy st |}.

Definition setOverrides (v : gmap nat string) (st : AppState) : AppState :=
  {| statusFilter := statusFilter st; qDebounced := qDebounced st;
     aliases := aliases st; appliedAliasCount := appliedAliasCount st;
     rows := rows st; overrides := v; logs := logs st;
     bulkMinScore := bulkMinScore st; pendingChanges := pendingChanges st;
     commitPreviewOpen := commitPreviewOpen st; toasts := toasts st;
     clock := clock st; entropy := entropy st |}.

Definition setAliases (v : gmap string string) (st : AppState) : AppState :=
  {| statusFilter := statusFilter st; qDebounced := qDebounced st;
     aliases := v; appliedAliasCount := appliedAliasCount st;
     rows := rows st; overrides := overrides st; logs := logs st;
     bulkMinScore := bulkMinScore st; pendingChanges := pendingChanges st;
     commitPreviewOpen := commitPreviewOpen st; toasts := toasts st;
     clock := clock st; entropy := entropy st |}.

Definition setAppliedAliasCount (v : nat) (st : AppState) : AppState :=
  {| statusFilter := statusFilter st; qDebounced := qDebounced st;
     aliases := aliases st; appliedAliasCount := v;
     rows := rows st; overrides := overrides st; logs := logs st;
     bulkMinScore := bulkMinScore st; pendingChanges := pendingChanges st;
     commitPreviewOpen := commitPreviewOpen st; toasts := toasts st;
     clock := clock st; entropy := entropy st |}.

Definition setLogs (v : list LogEntry) (st : AppState) : AppState :=
  {| statusFilter := statusFilter st; qDebounced := qDebounced st;
     aliases := aliases st; appliedAliasCount := appliedAliasCount st;
     rows := rows st; overrides := overrides st; logs := v;
     bulkMinScore := bulkMinScore st; pendingChanges := pendingChanges st;
     commitPreviewOpen := commitPreviewOpen st; toasts := toasts st;
     clock := clock st; entropy := entropy st |}.

Definition setPendingChanges (v : list PendingChange) (st : AppState) : AppState :=
  {| statusFilter := statusFilter st; qDebounced := qDebounced st;
     aliases := aliases st; appliedAliasCount := appliedAliasCount st;
     rows := rows st; overrides := overrides st; logs := logs st;
     bulkMinScore := bulkMinScore st; pendingChanges := v;
     commitPreviewOpen := commitPreviewOpen st; toasts := toasts st;
     clock := clock st; entropy := entropy st |}.

Definition setCommitPreviewOpen (v : bool) (st : AppState) : AppState :=
  {| statusFilter := statusFilter st; qDebounced := qDebounced st;
     aliases := aliases st; appliedAliasCount := appliedAliasCount st;
     rows := rows st; overrides := overrides st; logs := logs st;
     bulkMinScore := bulkMinScore st; pendingChanges := pendingChanges st;
     commitPreviewOpen := v; toasts := toasts st;
     clock := clock st; entropy := entropy st |}.

Definition toast (t : Toast) (st : AppState) : AppState :=
  {| statusFilter := statusFilter st; qDebounced := qDebounced st;
     aliases := aliases st; appliedAliasCount := appliedAliasCount st;
     rows := rows st; overrides := overrides st; logs := logs st;
     bulkMinScore := bulkMinScore st; pendingChanges := pendingChanges st;
     commitPreviewOpen := commitPreviewOpen st; toasts := toasts st ++ [t];
     clock := clock st; entropy := entropy st |}.

(** [setLogs(prev => [...prev, { id: makeId(), ts: ..., kind, text }])] *)
Definition pushLog (kind : LogKind) (text : LogText) (st : AppState) : AppState :=
  setLogs (logs st ++ [{| log_id := entropy st; log_ts := clock st;
                          log_kind := kind; log_text := text |}]) st.

(** [r.Name ?? r.input?.Name] *)
Definition rowName (r : PreviewRow) : option string :=
  nullish (row_Name r) (row_input r ≫= in_Name).

(** [r.Symbol ?? r.input?.Symbol] *)
Definition rowSymbol (r : PreviewRow) : option string :=
  nullish (row_Symbol r) (row_input r ≫= in_Symbol).

(** [r.candidates?.[0]] *)
Definition topCandidate (r : PreviewRow) : option Candidate :=
  row_candidates r ≫= head.

(** ** Risk classifier *)

(** [riskOf(score?, source?)]; [source] is accepted and not read. *)
Definition riskOf (score : option float) (source : option string) : RiskLevel :=
  match score with
  | None => HIGH
  | Some s =>
      if geb s 0.85 then LOW
      else if geb s 0.6 then MEDIUM
      else HIGH
  end.

(** Severity of a tier, the [rk] table of the commit preview's comparator. *)
Definition rk (r : RiskLevel) : Z :=
  match r with HIGH => 2 | MEDIUM => 1 | LOW => 0 end.

(** ** Learned aliases applied to a preview response ([onChooseFile]) *)

(** [arr.findIndex(p)]; [None] stands for [-1]. *)
Fixpoint findIndex {A} (p : A -> bool) (l : list A) : option nat :=
  match l with
  | [] => None
  | x :: l' => if p x then Some 0 else S <$> findIndex p l'
  end.

(** [c => c.symbol?.toUpperCase() === learned.toUpperCase()] *)
Definition matchesLearned (learned : string) (c : Candidate) : bool :=
  String.eqb (toUpperCase (cand_symbol c)) (toUpperCase learned).

(** [{ ...hit, score: typeof hit.score === "number"
        ? Math.min(hit.score + 0.05, 0.999) : hit.score }] *)
Definition bumped (hit : Candidate) : Candidate :=
  {| cand_symbol := cand_symbol hit;
     cand_name := cand_name hit;
     cand_type := cand_type hit;
     cand_score :=
       match cand_score hit with
       | Some s => Some (Math_min (s + 0.05) 0.999)
       | None => None
       end;
     cand_source := cand_source hit |}.

(** The body of [if (idx >= 0)]: [splice(idx, 1)] takes the hit out,
    [unshift(bumped)] puts it back in front.  [None] when [idx] is [-1]. *)
Definition moveToTop (learned : string) (cands : list Candidate)
  : option (list Candidate) :=
  idx ← findIndex (matchesLearned learned) cands;
  hit ← cands !! idx;
  Some (bumped hit :: delete idx cands).

(** The alias step on a candidate array, and whether it applied. *)
Definition applyLearned (learned : option string) (cands : list Candidate)
  : list Candidate * bool :=
  match learned with
  | Some l =>
      if truthy l && (0 <? length cands)%nat then
        match moveToTop l cands with
        | Some cands' => (cands', true)
        | None => (cands, false)
        end
      else (cands, false)
  | None => (cands, false)
  end.

(** What the callback of [data.map((r, i) => ...)] returns, with the
    increment of [applied] beside the row, when [learned = aliases[nm]] is
    a string of the object's own or is [undefined].  On the rows of
    [normalizeThrows] the callback returns nothing: it throws. *)
Definition normalizeRow (als : gmap string string) (i : nat) (r : ServerRow)
  : PreviewRow * bool :=
  let cands := default [] (srv_candidates r) in
  let Name := nullish (srv_Name r) (srv_input r ≫= in_Name) in
  let nm := norm (nullish Name (srv_input r ≫= in_Name)) in
  let '(cands', hit) := applyLearned (als !! nm) cands in
  ({| row_index := default i (srv_index r);
      row_status := srv_status r;
      row_candidates := Some cands';
      row_notes := srv_notes r;
      row_input := srv_input r;
      row_Name := Name;
      row_Symbol := nullish (srv_Symbol r) (srv_input r ≫= in_Symbol);
      row_proposed := srv_proposed r |}, hit).

(** Whether the callback throws on [r].  When no alias was learned for
    [nm] and [nm] is a name inherited from [Object.prototype], [learned]
    is truthy without being a string; if the row has a candidate, the
    predicate of [findIndex] is called on it and [learned.toUpperCase()]
    is a TypeError. *)
Definition normalizeThrows (als : gmap string string) (r : ServerRow) : bool :=
  let cands := default [] (srv_candidates r) in
  let Name := nullish (srv_Name r) (srv_input r ≫= in_Name) in
  let nm := norm (nullish Name (srv_input r ≫= in_Name)) in
  match getProperty als nm with
  | Inherited => (0 <? length cands)%nat
  | OwnString _ | Undefined => false
  end.

(** The callback itself; [None] stands for the exception. *)
Definition normalizeCallback (als : gmap string string) (i : nat) (r : ServerRow)
  : option (PreviewRow * bool) :=
  if normalizeThrows als r then None else Some (normalizeRow als i r).

(** [arr.map(callbackfn)] with a callback that may throw: the elements are
    visited in order and the first exception ends the visit. *)
Fixpoint Array_map {A B} (callbackfn : nat -> A -> option B) (l : list A)
  : option (list B) :=
  match l with
  | [] => Some []
  | x :: l' =>
      y ← callbackfn 0%nat x;
      ys ← Array_map (callbackfn ∘ S) l';
      Some (y :: ys)
  end.

Definition countApplied (l : list (PreviewRow * bool)) : nat :=
  length (List.filter snd l).

(** [onChooseFile] on the path where a file was chosen and the preview
    request answered [data]: the session's rows and overrides are reset,
    the rows are normalized and boosted by the learned aliases.  When the
    callback throws, the [catch] block logs and shows the error, and the
    rows stay reset.  The log lines that only report timings are left
    out. *)
Definition onChooseFile (data : list ServerRow) (st : AppState) : AppState :=
  let st0 := setOverrides ∅ (setRows [] st) in
  match Array_map (normalizeCallback (aliases st0)) data with
  | Some normalized =>
      let applied := countApplied normalized in
      let st1 := setRows (fst <$> normalized) (setAppliedAliasCount applied st0) in
      let st2 := if (0 <? applied)%nat
                 then pushLog success (AliasesApplied applied) st1 else st1 in
      toast PreviewReady st2
  | None => toast PreviewFailedToast (pushLog error PreviewFailed st0)
  end.

(** ** Overrides *)

(** [setOverrideForRow(rowIndex, value)] *)
Definition setOverrideForRow (rowIndex : nat) (value : string) (st : AppState)
  : AppState :=
  if negb (truthy value) then
    pushLog info (ClearedOverride rowIndex)
      (setOverrides (delete rowIndex (overrides st)) st)
  else
    let r := List.find (fun rr => (row_index rr =? rowIndex)%nat) (rows st) in
    let nm := norm (r ≫= rowName) in
    let st1 := setOverrides (<[rowIndex := value]> (overrides st)) st in
    let st2 := if truthy nm
               then setAliases (<[nm := value]> (aliases st1)) st1 else st1 in
    pushLog info (OverrideSet rowIndex value) st2.

(** The [filtered] memo: the rows shown under the status chip and the
    search box. *)
Definition filtered (st : AppState) : list PreviewRow :=
  let q := toLowerCase (trim (qDebounced st)) in
  List.filter
    (fun r =>
       if negb (String.eqb (statusFilter st) "ALL")
          && negb (String.eqb (row_status r) (statusFilter st))
       then false
       else if negb (truthy q) then true
       else
         let name := toLowerCase (default "" (rowName r)) in
         let sym := toLowerCase (default "" (rowSymbol r)) in
         let top := default "" (toLowerCase ∘ cand_symbol <$> topCandidate r) in
         includes name q || includes sym q
         || includes (toLowerCase (row_status r)) q || includes top q)
    (rows st).

(** The guard of the bulk loop: the top candidate the row is given, if any.
    A row is skipped only when its top score is a number below the
    threshold. *)
Definition bulkTop (minScore : float) (r : PreviewRow) : option Candidate :=
  if (String.eqb (row_status r) FILLED || String.eqb (row_status r) AMBIGUOUS)
     && (0 <? length (default [] (row_candidates r)))%nat
  then
    match topCandidate r with
    | Some top =>
        match cand_score top with
        | Some s => if PrimFloat.ltb s minScore then None else Some top
        | None => Some top
        end
    | None => None
    end
  else None.

(** One turn of [for (const r of filtered)], on the overrides being built,
    the aliases and the counter. *)
Definition bulkStep (minScore : float)
  (acc : gmap nat string * gmap string string * nat) (r : PreviewRow)
  : gmap nat string * gmap string string * nat :=
  let '(next, als, changed) := acc in
  match bulkTop minScore r with
  | Some top =>
      let nm := norm (rowName r) in
      (<[row_index r := cand_symbol top]> next,
       (if truthy nm then <[nm := cand_symbol top]> als else als),
       S changed)
  | None => acc
  end.

(** [bulkApplyTopCandidates()].  The loop is the body of the updater that
    the handler gives to [setOverrides].  React queues an updater and
    calls it when it next renders the component, after the handler has
    returned; [pushLog] and [toast] read [changed] before that, when it
    still is the 0 it was declared with.  The count the loop arrives at
    reaches no message. *)
Definition bulkApplyTopCandidates (st : AppState) : AppState :=
  let changed := 0%nat in
  let '(next, als, _) :=
    foldl (bulkStep (bulkMinScore st)) (overrides st, aliases st, changed)
      (filtered st) in
  toast (BulkAppliedToast changed)
    (pushLog step (BulkApplied changed (bulkMinScore st))
       (setAliases als (setOverrides next st))).

(** ** Commit preview *)

(** One turn of [for (const r of rows)] in [openCommitPreview]: the change
    pushed for the row, or [None] where the loop continues. *)
Definition changeOf (ov : gmap nat string) (r : PreviewRow)
  : option PendingChange :=
  let to := ov !! row_index r in
  if negb (truthyOpt to) && negb (String.eqb (row_status r) FILLED) then None
  else
    let top := topCandidate r in
    let chosen :=
      if truthyOpt to then to
      else if String.eqb (row_status r) FILLED then cand_symbol <$> top
      else Some "" in
    if negb (truthyOpt chosen) then None
    else
      let byTo :=
        row_candidates r ≫=
          List.find (fun c => bool_decide (Some (cand_symbol c) = to)) in
      let sc := if truthyOpt to then byTo ≫= cand_score else top ≫= cand_score in
      let src := if truthyOpt to then byTo ≫= cand_source else top ≫= cand_source in
      Some {| pc_index := row_index r;
              pc_name := default "" (rowName r);
              pc_fromSymbol := default "" (rowSymbol r);
              pc_toSymbol := default "" chosen;
              pc_score := sc;
              pc_source := src;
              pc_risk := riskOf sc src |}.

(** The comparator given to [changes.sort]. *)
Definition compareChanges (a b : PendingChange) : float :=
  let d := (rk (pc_risk a) - rk (pc_risk b))%Z in
  if negb (d =? 0)%Z then (if (0 <? d)%Z then (-1)%float else 1%float)
  else (default (-1)%float (pc_score b) - default (-1)%float (pc_score a))%float.

(** [Array.prototype.sort(comparefn)] as a stable insertion sort: an
    element moves behind a later one only when [comparefn] answers a
    number above zero (a NaN answer counts as zero).  The sort of the
    language is stable, so that with a comparator that decides an order
    every implementation returns this array.  With another comparator
    (that of the commit preview is one when a score is NaN) the order is
    left to the implementation and this array is a permutation of the
    input like any other: below, what is said of the order of a sorted
    array is said of arrays without NaN scores ([scoresComparable]). *)
Fixpoint insertSorted {A} (comparefn : A -> A -> float) (x : A) (l : list A)
  : list A :=
  match l with
  | [] => [x]
  | y :: l' =>
      if gtb (comparefn x y) 0 then y :: insertSorted comparefn x l'
      else x :: l
  end.

Definition Array_sort {A} (comparefn : A -> A -> float) (l : list A) : list A :=
  foldr (insertSorted comparefn) [] l.

(** The [changes] array before it is sorted. *)
Definition buildChanges (ov : gmap nat string) (rs : list PreviewRow)
  : list PendingChange :=
  omap (changeOf ov) rs.

(** [openCommitPreview()] *)
Definition openCommitPreview (st : AppState) : AppState :=
  match rows st with
  | [] => toast SelectFileFirst st
  | _ =>
      setCommitPreviewOpen true
        (setPendingChanges
           (Array_sort compareChanges (buildChanges (overrides st) (rows st)))
           st)
  end.

(** ** Row status *)

(** Modelled from the spec: what the Row Resolver, which is not among the
    frontend sources, takes for a blank cell: a missing one, an empty one
    or one of white space only. *)
Definition isBlank (o : option string) : bool :=
  negb (truthy (trim (default "" o))).

(** Modelled from the spec: the Row Resolver's status assignment, which is
    code of the backend and not among the frontend sources.  A row with a
    non-blank original Symbol is [FILLED]; else a row with a blank Name is
    [UNCHANGED]; else the row is [NOT_FOUND] when resolution found no
    candidate and [AMBIGUOUS] when it found at least one. *)
Definition resolveStatus (Symbol Name : option string) (cands : list Candidate)
  : string :=
  if negb (isBlank Symbol) then FILLED
  else if isBlank Name then UNCHANGED
  else match cands with
       | [] => NOT_FOUND
       | _ => AMBIGUOUS
       end.

(** ** Notions the statements use *)

(** The symbol the commit preview proposes for a row, if it proposes one. *)
Definition committedSymbol (ov : gmap nat string) (r : PreviewRow)
  : option string :=
  pc_toSymbol <$> changeOf ov r.

(** The number the comparator sorts a change by: [c.score ?? -1]. *)
Definition sortKey (c : PendingChange) : float :=
  default (-1)%float (pc_score c).

(** [a] may stand before [b] in the review order: [a] is of a more severe
    tier, or of the same tier with a sort key not below that of [b]. *)
Definition changeLe (a b : PendingChange) : Prop :=
  (rk (pc_risk b) < rk (pc_risk a))%Z \/
  (rk (pc_risk a) = rk (pc_risk b) /\
   PrimFloat.leb (sortKey b) (sortKey a) = true).

(** No score of the row's candidates is NaN (a preview response is JSON,
    which has no NaN). *)
Definition scoresComparable (r : PreviewRow) : Prop :=
  Forall (fun c => match cand_score c with
                   | Some s => PrimFloat.is_nan s = false
                   | None => True
                   end)
         (default [] (row_candidates r)).

(** The rows of [l] that the bulk loop writes under the override key [i],
    and under the alias key [k]. *)
Definition bulkWritesIndex (minScore : float) (i : nat) (l : list PreviewRow)
  : list PreviewRow :=
  List.filter (fun r => (row_index r =? i)%nat
                        && bool_decide (is_Some (bulkTop minScore r))) l.

Definition bulkWritesAlias (minScore : float) (k : string) (l : list PreviewRow)
  : list PreviewRow :=
  List.filter (fun r => String.eqb (norm (rowName r)) k && truthy k
                        && bool_decide (is_Some (bulkTop minScore r))) l.

(** ** A session used in the examples *)

Definition mkCandidate (sym nm : string) (sc : option float) (src : string)
  : Candidate :=
  {| cand_symbol := sym; cand_name := nm; cand_type := None;
     cand_score := sc; cand_source := Some src |}.

Definition mkRow (i : nat) (st : string) (cands : list Candidate)
  (nm : string) (sym : option string) : PreviewRow :=
  {| row_index := i; row_status := st; row_candidates := Some cands;
     row_notes := None;
     row_input := Some {| in_Name := Some nm; in_Symbol := sym |};
     row_Name := Some nm; row_Symbol := sym; row_proposed := None |}.

(** Three unresolved rows whose top candidates score 0.9, 0.7 and 0.5. *)
Definition exampleRows : list PreviewRow :=
  [ mkRow 0 AMBIGUOUS
      [ mkCandidate "AAPL" "Apple Inc" (Some 0.9%float) "FINNHUB";
        mkCandidate "APLE" "Apple Hospitality REIT" (Some 0.4%float) "POLYGON" ]
      "Apple Inc." None;
    mkRow 1 AMBIGUOUS
      [ mkCandidate "MSFT" "Microsoft Corp" (Some 0.7%float) "FINNHUB" ]
      "Microsoft" None;
    mkRow 2 AMBIGUOUS
      [ mkCandidate "TSLA" "Tesla Inc" (Some 0.5%float) "POLYGON" ]
      " Tesla " None ].

Definition exampleState : AppState :=
  {| statusFilter := "ALL"; qDebounced := "";
     aliases := ∅; appliedAliasCount := 0;
     rows := exampleRows; overrides := ∅; logs := [];
     bulkMinScore := 0.8%float;
     pendingChanges := []; commitPreviewOpen := false; toasts := [];
     clock := "10:15:00"; entropy := "k3x9" |}.

(** The same session later on, with every row overridden by hand. *)
Definition overriddenState : AppState :=
  setOverrideForRow 2 "TSLA"
    (setOverrideForRow 1 "MSFT" (setOverrideForRow 0 "AAPL" exampleState)).

(** The same rows and overrides seen at another time, with other aliases,
    another filter and another log. *)
Definition laterState : AppState :=
  {| statusFilter := AMBIGUOUS; qDebounced := "tes";
     aliases := {[ "apple inc." := "APLE" ]}; appliedAliasCount := 1;
     rows := rows overriddenState; overrides := overrides overriddenState;
     logs := [];
     bulkMinScore := 0.3%float;
     pendingChanges := []; commitPreviewOpen := false; toasts := [SelectFileFirst];
     clock := "23:59:59"; entropy := "zzzz" |}.

(** A row that came with its Symbol, resolved with one other candidate. *)
Definition filledRow : PreviewRow :=
  let cands := [ mkCandidate "APLE" "Apple Hospitality REIT" (Some 0.9%float) "POLYGON" ] in
  mkRow 0 (resolveStatus (Some "AAPL") (Some "Apple Inc.") cands) cands
    "Apple Inc." (Some "AAPL").

(** A row that came with its Symbol and resolved without candidates. *)
Definition filledBareRow : PreviewRow :=
  mkRow 1 (resolveStatus (Some "MSFT") (Some "Microsoft") []) []
    "Microsoft" (Some "MSFT").

(** A row whose top candidate carries no score. *)
Definition unscoredRow : PreviewRow :=
  {| row_index := 0; row_status := AMBIGUOUS;
     row_candidates :=
       Some [ {| cand_symbol := "NFLX"; cand_name := "Netflix Inc";
                 cand_type := None; cand_score := None;
                 cand_source := Some "LOCAL" |} ];
     row_notes := None; row_input := None;
     row_Name := None; row_Symbol := None; row_proposed := None |}.

Definition unscoredState : AppState :=
  setRows [unscoredRow] exampleState.

(** A preview response of one row, and the aliases learned before it. *)
Definition candAAPL : Candidate :=
  mkCandidate "AAPL" "Apple Inc" (Some 0.5%float) "FINNHUB".

Definition candAPLE : Candidate :=
  mkCandidate "APLE" "Apple Hospitality REIT" (Some 0.4%float) "POLYGON".

Definition serverApple : ServerRow :=
  {| srv_index := None; srv_status := AMBIGUOUS;
     srv_candidates := Some [candAAPL; candAPLE];
     srv_notes := None;
     srv_input := Some {| in_Name := Some "  Apple Inc. "; in_Symbol := None |};
     srv_Name := None; srv_Symbol := None; srv_proposed := None |}.

Definition learnedAliases : gmap string string := {[ "apple inc." := "aple" ]}.

(** ** Status counts ([computeCounts]) *)

(** [Counts = Record<PreviewStatus, number>]. *)
Record Counts := {
  cnt_FILLED : nat;
  cnt_AMBIGUOUS : nat;
  cnt_NOT_FOUND : nat;
  cnt_UNCHANGED : nat;
  cnt_ENRICHED : nat
}.

Definition zeroCounts : Counts :=
  {| cnt_FILLED := 0; cnt_AMBIGUOUS := 0; cnt_NOT_FOUND := 0;
     cnt_UNCHANGED := 0; cnt_ENRICHED := 0 |}.

(** One turn of [for (const r of rows)]: [if (k in base) base[k] += 1].
    A status that is none of the five keys leaves the five counters as
    they are. *)
Definition countStep (base : Counts) (r : PreviewRow) : Counts :=
  let k := row_status r in
  if String.eqb k FILLED then
    {| cnt_FILLED := S (cnt_FILLED base); cnt_AMBIGUOUS := cnt_AMBIGUOUS base;
       cnt_NOT_FOUND := cnt_NOT_FOUND base; cnt_UNCHANGED := cnt_UNCHANGED base;
       cnt_ENRICHED := cnt_ENRICHED base |}
  else if String.eqb k AMBIGUOUS then
    {| cnt_FILLED := cnt_FILLED base; cnt_AMBIGUOUS := S (cnt_AMBIGUOUS base);
       cnt_NOT_FOUND := cnt_NOT_FOUND base; cnt_UNCHANGED := cnt_UNCHANGED base;
       cnt_ENRICHED := cnt_ENRICHED base |}
  else if String.eqb k NOT_FOUND then
    {| cnt_FILLED := cnt_FILLED base; cnt_AMBIGUOUS := cnt_AMBIGUOUS base;
       cnt_NOT_FOUND := S (cnt_NOT_FOUND base); cnt_UNCHANGED := cnt_UNCHANGED base;
       cnt_ENRICHED := cnt_ENRICHED base |}
  else if String.eqb k UNCHANGED then
    {| cnt_FILLED := cnt_FILLED base; cnt_AMBIGUOUS := cnt_AMBIGUOUS base;
       cnt_NOT_FOUND := cnt_NOT_FOUND base; cnt_UNCHANGED := S (cnt_UNCHANGED base);
       cnt_ENRICHED := cnt_ENRICHED base |}
  else if String.eqb k ENRICHED then
    {| cnt_FILLED := cnt_FILLED base; cnt_AMBIGUOUS := cnt_AMBIGUOUS base;
       cnt_NOT_FOUND := cnt_NOT_FOUND base; cnt_UNCHANGED := cnt_UNCHANGED base;
       cnt_ENRICHED := S (cnt_ENRICHED base) |}
  else base.

(** [k in base]: [k] is one of the five status keys. *)
Definition isPreviewStatus (k : string) : bool :=
  String.eqb k FILLED || String.eqb k AMBIGUOUS || String.eqb k NOT_FOUND
  || String.eqb k UNCHANGED || String.eqb k ENRICHED.

(** The chips above the table. *)
Definition statusChips : list string :=
  ["ALL"; FILLED; AMBIGUOUS; NOT_FOUND; UNCHANGED; ENRICHED]%string.

(** The rows of [rs] whose status is [s]. *)
Definition withStatus (s : string) (rs : list PreviewRow) : list PreviewRow :=
  List.filter (fun r => String.eqb (row_status r) s) rs.

(** [computeCounts(rows)] *)
Definition computeCounts (rs : list PreviewRow) : Counts :=
  foldl countStep zeroCounts rs.

(** [counts[s]] for a status key [s]. *)
Definition countOf (c : Counts) (s : string) : option nat :=
  if String.eqb s FILLED then Some (cnt_FILLED c)
  else if String.eqb s AMBIGUOUS then Some (cnt_AMBIGUOUS c)
  else if String.eqb s NOT_FOUND then Some (cnt_NOT_FOUND c)
  else if String.eqb s UNCHANGED then Some (cnt_UNCHANGED c)
  else if String.eqb s ENRICHED then Some (cnt_ENRICHED c)
  else None.

(** The number beside a status chip:
    [s === "ALL" ? rows.length : counts[s]]. *)
Definition chipCount (s : string) (st : AppState) : option nat :=
  if String.eqb s "ALL" then Some (length (rows st))
  else countOf (computeCounts (rows st)) s.

(** ** Commit preview modal and row drawer *)

Definition sameRisk (a b : RiskLevel) : bool :=
  match a, b with
  | HIGH, HIGH | MEDIUM, MEDIUM | LOW, LOW => true
  | _, _ => false
  end.

Module CommitPreview.

(** [changes.filter(c => c.risk === "HIGH").length], and the like. *)
Definition tally (t : RiskLevel) (changes : list PendingChange) : nat :=
  length (List.filter (fun c => sameRisk (pc_risk c) t) changes).

Definition hi : list PendingChange -> nat := tally HIGH.
Definition me : list PendingChange -> nat := tally MEDIUM.
Definition lo : list PendingChange -> nat := tally LOW.

(** The colour of the risk badge of a change:
    [c.risk === "HIGH" ? "red" : c.risk === "MEDIUM" ? "yellow" : "green"]. *)
Definition colorScheme (risk : RiskLevel) : string :=
  if sameRisk risk HIGH then "red"
  else if sameRisk risk MEDIUM then "yellow" else "green".

End CommitPreview.

Module RowDrawer.

(** The colour of the score badge in the drawer's header, shown when the
    top candidate's score is a number:
    [top.score >= 0.85 ? "green" : top.score >= 0.6 ? "yellow" : "red"]. *)
Definition colorScheme (score : float) : string :=
  if geb score 0.85 then "green" else if geb score 0.6 then "yellow" else "red".

End RowDrawer.

(** ** Strings of white space *)

Fixpoint allWhiteSpace (s : string) : bool :=
  match s with
  | EmptyString => true
  | String c s' => isWhiteSpace c && allWhiteSpace s'
  end.

(** ** Further sessions used in the examples *)

(** The example rows and two rows that came with their Symbol, seen under
    the AMBIGUOUS chip with a search box of two spaces. *)
Definition ambiguousView : AppState :=
  {| statusFilter := AMBIGUOUS; qDebounced := "  ";
     aliases := ∅; appliedAliasCount := 0;
     rows := exampleRows ++ [mkRow 3 FILLED (default [] (row_candidates filledRow))
                               "Apple Inc." (Some "AAPL");
                             mkRow 4 NOT_FOUND [] "Acme Holdings" None];
     overrides := ∅; logs := [];
     bulkMinScore := 0%float;
     pendingChanges := []; commitPreviewOpen := false; toasts := [];
     clock := "10:20:00"; entropy := "p0q1" |}.

(** The strings of a served row that the alias step reads, its name and
    the symbols of its candidates, are ASCII. *)
Definition asciiServerRow (sr : ServerRow) : bool :=
  isASCII (default "" (nullish (srv_Name sr) (srv_input sr ≫= in_Name)))
  && forallb (fun c => isASCII (cand_symbol c)) (default [] (srv_candidates sr)).

(** Whether the alias learned for a served row's name is the symbol of one
    of its candidates, up to case. *)
Definition aliasHits (als : gmap string string) (r : ServerRow) : bool :=
  match als !! norm (nullish (srv_Name r) (srv_input r ≫= in_Name)) with
  | Some learned =>
      truthy learned
      && existsb (matchesLearned learned) (default [] (srv_candidates r))
  | None => false
  end.

(** What of a candidate the alias step never touches. *)
Definition candidateIdentity (c : Candidate)
  : string * string * option string * option string :=
  (cand_symbol c, cand_name c, cand_type c, cand_source c).

(** A served row named after a member that every object inherits. *)
Definition serverConstructor : ServerRow :=
  {| srv_index := None; srv_status := AMBIGUOUS;
     srv_candidates :=
       Some [ mkCandidate "CNST" "Constructor Holdings" (Some 0.7%float) "FINNHUB" ];
     srv_notes := None;
     srv_input := Some {| in_Name := Some "Constructor"; in_Symbol := None |};
     srv_Name := None; srv_Symbol := None; srv_proposed := None |}.

(** The first of the example rows. *)
Definition appleRow : PreviewRow :=
  mkRow 0 AMBIGUOUS
    [ mkCandidate "AAPL" "Apple Inc" (Some 0.9%float) "FINNHUB";
      mkCandidate "APLE" "Apple Hospitality REIT" (Some 0.4%float) "POLYGON" ]
    "Apple Inc." None.

(** The example session with two rows overridden by symbols that none of
    their candidates has. *)
Definition tiedState : AppState :=
  setOverrideForRow 1 "MSFT.X" (setOverrideForRow 0 "AAPL.X" exampleState).

(** * Order of binary64 numbers *)

Section Binary64.

Local Open Scope Z_scope.

(** Forget what the powers of two in sight are, keeping that they are
    positive; what is left is linear. *)
Ltac forget_pow :=
  repeat match goal with
         | H : context [2 ^ ?e] |- _ =>
             let v := fresh "pw" in
             pose proof (Z.pow_nonneg 2 e ltac:(lia));
             set (v := 2 ^ e) in *; clearbody v
         | |- context [2 ^ ?e] =>
             let v := fresh "pw" in
             pose proof (Z.pow_nonneg 2 e ltac:(lia));
             set (v := 2 ^ e) in *; clearbody v
         end.

Lemma digits2_pos_bounds (m : positive) :
  2 ^ (Z.pos (digits2_pos m) - 1) <= Z.pos m < 2 ^ Z.pos (digits2_pos m).
Proof.
  induction m as [p IH | p IH |]; cbn [digits2_pos].
  - rewrite Pos2Z.inj_succ. change (Z.pos p~1) with (2 * Z.pos p + 1).
    replace (Z.succ (Z.pos (digits2_pos p)) - 1) with (Z.succ (Z.pos (digits2_pos p) - 1)) by lia.
    rewrite !Z.pow_succ_r by lia. forget_pow. lia.
  - rewrite Pos2Z.inj_succ. change (Z.pos p~0) with (2 * Z.pos p).
    replace (Z.succ (Z.pos (digits2_pos p)) - 1) with (Z.succ (Z.pos (digits2_pos p) - 1)) by lia.
    rewrite !Z.pow_succ_r by lia. forget_pow. lia.
  - cbn. lia.
Qed.

Lemma bounded_inv (m : positive) (e : Z) :
  bounded prec emax m e = true ->
  -1074 <= e <= 971 /\ Z.pos (digits2_pos m) <= 53 /\
  (-1074 < e -> Z.pos (digits2_pos m) = 53).
Proof.
  unfold bounded, canonical_mantissa, fexp, SpecFloat.emin, prec, emax.
  intros H. apply andb_prop in H as [H1 H2].
  apply Z.eqb_eq in H1. apply Z.leb_le in H2. lia.
Qed.

Lemma magnitude_pos m e : -1074 <= e -> 0 < magnitude m e.
Proof.
  intros He. unfold magnitude.
  pose proof (Z.pow_pos_nonneg 2 (e + 1074)). lia.
Qed.

(** A canonical mantissa lies within one binade above its exponent. *)
Lemma magnitude_bounds m e :
  bounded prec emax m e = true ->
  magnitude m e < 2 ^ (e + 1127) /\
  (-1074 < e -> 2 ^ (e + 1126) <= magnitude m e).
Proof.
  intros Hb. destruct (bounded_inv _ _ Hb) as (He & Hd & Hn).
  pose proof (digits2_pos_bounds m) as [Hlo Hhi].
  unfold magnitude.
  assert (Hp : 0 < 2 ^ (e + 1074)) by (apply Z.pow_pos_nonneg; lia).
  split.
  - replace (e + 1127) with (53 + (e + 1074)) by lia.
    rewrite (Z.pow_add_r 2 53 (e + 1074)) by lia.
    apply Z.mul_lt_mono_pos_r; [exact Hp|].
    eapply Z.lt_le_trans; [exact Hhi|].
    apply Z.pow_le_mono_r; lia.
  - intros H. rewrite (Hn H) in Hlo.
    replace (e + 1126) with (52 + (e + 1074)) by lia.
    rewrite (Z.pow_add_r 2 52 (e + 1074)) by lia.
    apply Z.mul_le_mono_nonneg_r; [lia|exact Hlo].
Qed.

Lemma magnitude_lt_inf m e :
  bounded prec emax m e = true -> magnitude m e < infValue.
Proof.
  intros Hb. destruct (bounded_inv _ _ Hb) as (He & _).
  destruct (magnitude_bounds _ _ Hb) as [Hlt _].
  eapply Z.lt_le_trans; [exact Hlt|].
  unfold infValue. apply Z.pow_le_mono_r; lia.
Qed.

Lemma magnitude_compare m1 e1 m2 e2 :
  bounded prec emax m1 e1 = true -> bounded prec emax m2 e2 = true ->
  match e1 ?= e2 with
  | Lt => Lt
  | Gt => Gt
  | Eq => Pos.compare_cont Eq m1 m2
  end = (magnitude m1 e1 ?= magnitude m2 e2).
Proof.
  intros H1 H2.
  destruct (bounded_inv _ _ H1) as (He1 & _).
  destruct (bounded_inv _ _ H2) as (He2 & _).
  destruct (magnitude_bounds _ _ H1) as [Hhi1 Hlo1].
  destruct (magnitude_bounds _ _ H2) as [Hhi2 Hlo2].
  destruct (Z.compare_spec e1 e2) as [-> | Hlt | Hgt].
  - unfold magnitude.
    assert (Hp : 0 < 2 ^ (e2 + 1074)) by (apply Z.pow_pos_nonneg; lia).
    change (Pos.compare_cont Eq m1 m2) with (Z.pos m1 ?= Z.pos m2).
    destruct (Z.compare_spec (Z.pos m1) (Z.pos m2)) as [Heq | Hlt | Hgt]; symmetry.
    + apply Z.compare_eq_iff. now rewrite Heq.
    + apply Z.compare_lt_iff. now apply Z.mul_lt_mono_pos_r.
    + apply Z.compare_gt_iff. now apply Z.mul_lt_mono_pos_r.
  - symmetry. apply Z.compare_lt_iff.
    specialize (Hlo2 ltac:(lia)).
    assert (2 ^ (e1 + 1127) <= 2 ^ (e2 + 1126)) by (apply Z.pow_le_mono_r; lia).
    lia.
  - symmetry. apply Z.compare_gt_iff.
    specialize (Hlo1 ltac:(lia)).
    assert (2 ^ (e2 + 1127) <= 2 ^ (e1 + 1126)) by (apply Z.pow_le_mono_r; lia).
    lia.
Qed.

(** On valid numbers other than NaN, the comparison of the format is the
    comparison of the values. *)
Lemma SFcompare_value (x y : spec_float) :
  valid_binary x = true -> valid_binary y = true ->
  x <> S754_nan -> y <> S754_nan ->
  SFcompare x y = Some (SFvalue x ?= SFvalue y).
Proof.
  intros Vx Vy Nx Ny.
  assert (Hinf : 0 < infValue) by (unfold infValue; apply Z.pow_pos_nonneg; lia).
  destruct x as [sx | sx | | sx mx ex], y as [sy | sy | | sy my ey];
    try congruence; cbn [valid_binary] in Vx, Vy; cbn [SFcompare SFvalue].
  9: {
    f_equal. pose proof (magnitude_compare _ _ _ _ Vx Vy) as Hc.
    destruct sx, sy; cbn [cond_Zopp].
    - rewrite Z.compare_opp, (Z.compare_antisym (magnitude mx ex)), <- Hc.
      now destruct (ex ?= ey).
    - symmetry. apply Z.compare_lt_iff.
      pose proof (magnitude_pos mx ex ltac:(pose proof (bounded_inv _ _ Vx); lia)).
      pose proof (magnitude_pos my ey ltac:(pose proof (bounded_inv _ _ Vy); lia)). lia.
    - symmetry. apply Z.compare_gt_iff.
      pose proof (magnitude_pos mx ex ltac:(pose proof (bounded_inv _ _ Vx); lia)).
      pose proof (magnitude_pos my ey ltac:(pose proof (bounded_inv _ _ Vy); lia)). lia.
    - exact Hc. }
  all: repeat match goal with
           | H : bounded _ _ ?m ?e = true |- _ =>
               pose proof (magnitude_lt_inf _ _ H);
               pose proof (magnitude_pos m e ltac:(pose proof (bounded_inv _ _ H); lia));
               clear H
           end.
  all: f_equal; destruct sx; try destruct sy; cbn [cond_Zopp]; symmetry;
            first [ apply Z.compare_eq_iff; lia
                  | apply Z.compare_lt_iff; lia
                  | apply Z.compare_gt_iff; lia ].
Qed.


Lemma shr_1_m (mrs : shr_record) :
  0 <= shr_m mrs -> shr_m (shr_1 mrs) = shr_m mrs / 2.
Proof.
  destruct mrs as [m r s]. cbn [shr_m]. intros Hm.
  destruct m as [| p | p]; [reflexivity | | lia].
  destruct p as [p | p |]; cbn [shr_1 shr_m].
  - apply Z.div_unique with (r := 1); lia.
  - apply Z.div_unique with (r := 0); lia.
  - reflexivity.
Qed.

Lemma iter_pos_shr_m (p : positive) :
  forall mrs, 0 <= shr_m mrs ->
    shr_m (SpecFloat.iter_pos shr_1 p mrs) = shr_m mrs / 2 ^ Z.pos p.
Proof.
  induction p as [p IH | p IH |]; intros mrs Hm; cbn [SpecFloat.iter_pos].
  - assert (H2 : 0 <= shr_m (shr_1 mrs))
      by (rewrite shr_1_m by assumption; apply Z.div_pos; lia).
    assert (Hp : 0 < 2 ^ Z.pos p) by (apply Z.pow_pos_nonneg; lia).
    rewrite IH, IH, shr_1_m; try assumption.
    + rewrite !Z.div_div by lia. f_equal.
      replace (Z.pos p~1) with (1 + (Z.pos p + Z.pos p)) by lia.
      rewrite !Z.pow_add_r by lia. reflexivity.
    + rewrite IH by assumption. apply Z.div_pos; lia.
  - assert (Hp : 0 < 2 ^ Z.pos p) by (apply Z.pow_pos_nonneg; lia).
    rewrite IH, IH; try assumption.
    + rewrite !Z.div_div by lia. f_equal.
      replace (Z.pos p~0) with (Z.pos p + Z.pos p) by lia.
      rewrite !Z.pow_add_r by lia. reflexivity.
    + rewrite IH by assumption. apply Z.div_pos; lia.
  - apply shr_1_m. assumption.
Qed.

Lemma shr_record_of_loc_m m l : shr_m (shr_record_of_loc m l) = m.
Proof. destruct l as [| []]; reflexivity. Qed.

(** Shifting a positive mantissa down to its precision leaves it positive. *)
Lemma shr_fexp_pos (m e : Z) (l : location) :
  0 < m -> -1074 <= e ->
  0 < shr_m (fst (shr_fexp prec emax m e l)) /\ -1074 <= snd (shr_fexp prec emax m e l).
Proof.
  intros Hm He. unfold shr_fexp, shr.
  destruct m as [| p | p]; try lia. cbn [Zdigits2].
  pose proof (digits2_pos_bounds p) as [Hlo _].
  set (d := Z.pos (digits2_pos p)) in *.
  assert (Hd : 1 <= d) by (unfold d; lia).
  unfold fexp, SpecFloat.emin, prec, emax.
  destruct (Z.max (d + e - 53) (3 - 1024 - 53) - e) as [| q | q] eqn:Hn;
    cbn [fst snd]; rewrite ?shr_record_of_loc_m; try lia.
  rewrite iter_pos_shr_m by (rewrite shr_record_of_loc_m; lia).
  rewrite shr_record_of_loc_m. split; [|lia].
  apply Z.div_str_pos. split; [apply Z.pow_pos_nonneg; lia|].
  eapply Z.le_trans; [|exact Hlo].
  apply Z.pow_le_mono_r; lia.
Qed.

Lemma round_nearest_even_pos m l : 0 < m -> 0 < round_nearest_even m l.
Proof.
  intros Hm. destruct l as [| []]; cbn [round_nearest_even];
    try destruct (Z.even m); lia.
Qed.

Lemma binary_round_aux_sign s m e l :
  0 < m -> -1074 <= e ->
  signedNonzero s (binary_round_aux prec emax s m e l).
Proof.
  intros Hm He. unfold binary_round_aux.
  pose proof (shr_fexp_pos m e l Hm He) as [H1 H2].
  destruct (shr_fexp prec emax m e l) as [mrs' e']. cbn [fst snd] in H1, H2.
  pose proof (round_nearest_even_pos _ (loc_of_shr_record mrs') H1) as H3.
  pose proof (shr_fexp_pos _ e' loc_Exact H3 H2) as [H4 H5].
  destruct (shr_fexp prec emax _ e' loc_Exact) as [mrs'' e''].
  cbn [fst snd] in H4, H5.
  destruct (shr_m mrs'') as [| q | q]; try lia.
  destruct (e'' <=? emax - prec); reflexivity.
Qed.

Lemma binary_round_sign s m e :
  -1074 <= e -> signedNonzero s (binary_round prec emax s m e).
Proof.
  intros He. unfold binary_round, shl_align.
  set (e' := fexp prec emax (Z.pos (digits2_pos m) + e)).
  assert (He' : -1074 <= e')
    by (unfold e', fexp, SpecFloat.emin, prec, emax; lia).
  destruct (e' - e); apply binary_round_aux_sign; lia.
Qed.

Lemma shl_align_value m e ez :
  -1074 <= ez <= e ->
  Z.pos (fst (shl_align m e ez)) * 2 ^ (ez + 1074) = magnitude m e.
Proof.
  intros He. unfold shl_align, magnitude.
  destruct (ez - e) as [| d | d] eqn:Hd; cbn [fst]; try lia.
  - replace ez with e by lia. reflexivity.
  - change (Pos.iter xO m d) with (shift_pos d m).
    rewrite shift_pos_correct, Z.pow_pos_fold.
    replace (e + 1074) with (Z.pos d + (ez + 1074)) by lia.
    rewrite (Z.pow_add_r 2 (Z.pos d)) by lia. ring.
Qed.


(** The sign of a rounded difference is the sign of the exact one: [y - x]
    is above zero exactly when [x] is below [y]. *)
Lemma SFsub_pos (x y : spec_float) :
  valid_binary x = true -> valid_binary y = true ->
  x <> S754_nan -> y <> S754_nan ->
  SFltb (S754_zero false) (SF64sub y x) = (SFvalue x <? SFvalue y).
Proof.
  intros Vx Vy Nx Ny.
  assert (Hinf : 0 < infValue) by (unfold infValue; apply Z.pow_pos_nonneg; lia).
  destruct x as [sx | sx | | sx mx ex], y as [sy | sy | | sy my ey];
    try congruence; cbn [valid_binary] in Vx, Vy;
    unfold SF64sub; cbn [SFsub SFvalue].
  9: {
    destruct (bounded_inv _ _ Vx) as (Hex & _).
    destruct (bounded_inv _ _ Vy) as (Hey & _).
    pose proof (magnitude_pos mx ex ltac:(lia)) as Hpx.
    pose proof (magnitude_pos my ey ltac:(lia)) as Hpy.
    set (ez := Z.min ey ex).
    pose proof (shl_align_value mx ex ez ltac:(unfold ez; lia)) as Hax.
    pose proof (shl_align_value my ey ez ltac:(unfold ez; lia)) as Hay.
    set (ax := Z.pos (fst (shl_align mx ex ez))) in *.
    set (ay := Z.pos (fst (shl_align my ey ez))) in *.
    assert (Hp : 0 < 2 ^ (ez + 1074)) by (apply Z.pow_pos_nonneg; unfold ez; lia).
    assert (Hd : (cond_Zopp sy ay - cond_Zopp sx ax) * 2 ^ (ez + 1074)
                 = cond_Zopp sy (magnitude my ey) - cond_Zopp sx (magnitude mx ex))
      by (rewrite <- Hax, <- Hay; destruct sx, sy; cbn [cond_Zopp]; ring).
    set (vx := cond_Zopp sx (magnitude mx ex)) in *.
    set (vy := cond_Zopp sy (magnitude my ey)) in *.
    destruct (cond_Zopp sy ay - cond_Zopp sx ax) as [| D | D] eqn:HD;
      cbn [binary_normalize].
    - cbn. symmetry. apply Z.ltb_ge. lia.
    - pose proof (binary_round_sign false D ez ltac:(unfold ez; lia)) as Hs.
      assert (vx < vy) by nia.
      destruct (binary_round prec emax false D ez); cbn in Hs; try tauto; subst;
        cbn; symmetry; apply Z.ltb_lt; assumption.
    - pose proof (binary_round_sign true D ez ltac:(unfold ez; lia)) as Hs.
      assert (vy < vx) by nia.
      destruct (binary_round prec emax true D ez); cbn in Hs; try tauto; subst;
        cbn; symmetry; apply Z.ltb_ge; lia. }
  all: repeat match goal with
           | H : bounded _ _ ?m ?e = true |- _ =>
               pose proof (magnitude_lt_inf _ _ H);
               pose proof (magnitude_pos m e ltac:(pose proof (bounded_inv _ _ H); lia));
               clear H
           end.
  all: destruct sx; try destruct sy; cbn [cond_Zopp negb SFltb SFcompare]; symmetry;
         first [ apply Z.ltb_lt; lia | apply Z.ltb_ge; lia ].
Qed.


(** *** The same on primitive numbers *)

Lemma is_nan_Prim2SF (x : float) :
  PrimFloat.is_nan x = false <-> Prim2SF x <> S754_nan.
Proof.
  unfold PrimFloat.is_nan. rewrite FloatAxioms.eqb_spec. unfold SFeqb.
  pose proof (Prim2SF_valid x) as Vx.
  assert (D : Prim2SF x = S754_nan \/ Prim2SF x <> S754_nan)
    by (destruct (Prim2SF x); (left; reflexivity) || (right; discriminate)).
  destruct D as [E | N].
  - rewrite E. cbn. split; [discriminate | congruence].
  - rewrite SFcompare_value, Z.compare_refl by assumption. cbn. tauto.
Qed.

Lemma ltb_value (x y : float) :
  PrimFloat.is_nan x = false -> PrimFloat.is_nan y = false ->
  PrimFloat.ltb x y = (value x <? value y).
Proof.
  intros Nx%is_nan_Prim2SF Ny%is_nan_Prim2SF.
  rewrite FloatAxioms.ltb_spec. unfold SFltb, value, Z.ltb.
  rewrite SFcompare_value by auto using Prim2SF_valid.
  now destruct (_ ?= _).
Qed.

Lemma leb_value (x y : float) :
  PrimFloat.is_nan x = false -> PrimFloat.is_nan y = false ->
  PrimFloat.leb x y = (value x <=? value y).
Proof.
  intros Nx%is_nan_Prim2SF Ny%is_nan_Prim2SF.
  rewrite FloatAxioms.leb_spec. unfold SFleb, value, Z.leb.
  rewrite SFcompare_value by auto using Prim2SF_valid.
  now destruct (_ ?= _).
Qed.

(** A comparison that holds has no NaN on either side. *)
Lemma SFcompare_Some_notNaN x y c :
  SFcompare x y = Some c -> x <> S754_nan /\ y <> S754_nan.
Proof. destruct x, y; cbn; intros H; split; congruence. Qed.

Lemma ltb_true_notNaN (x y : float) :
  PrimFloat.ltb x y = true ->
  PrimFloat.is_nan x = false /\ PrimFloat.is_nan y = false.
Proof.
  rewrite FloatAxioms.ltb_spec, !is_nan_Prim2SF. unfold SFltb.
  destruct (SFcompare _ _) as [c |] eqn:E; [|discriminate].
  intros _. exact (SFcompare_Some_notNaN _ _ _ E).
Qed.

Lemma leb_true_notNaN (x y : float) :
  PrimFloat.leb x y = true ->
  PrimFloat.is_nan x = false /\ PrimFloat.is_nan y = false.
Proof.
  rewrite FloatAxioms.leb_spec, !is_nan_Prim2SF. unfold SFleb.
  destruct (SFcompare _ _) as [c |] eqn:E; [|discriminate].
  intros _. exact (SFcompare_Some_notNaN _ _ _ E).
Qed.

Lemma ltb_lt (x y : float) :
  PrimFloat.ltb x y = true ->
  PrimFloat.is_nan x = false /\ PrimFloat.is_nan y = false /\ value x < value y.
Proof.
  intros H. destruct (ltb_true_notNaN _ _ H) as [Nx Ny].
  rewrite ltb_value in H by assumption. apply Z.ltb_lt in H. auto.
Qed.

Lemma leb_le (x y : float) :
  PrimFloat.leb x y = true ->
  PrimFloat.is_nan x = false /\ PrimFloat.is_nan y = false /\ value x <= value y.
Proof.
  intros H. destruct (leb_true_notNaN _ _ H) as [Nx Ny].
  rewrite leb_value in H by assumption. apply Z.leb_le in H. auto.
Qed.

Lemma ltb_leb_false (x y : float) :
  PrimFloat.ltb x y = true -> PrimFloat.leb y x = false.
Proof.
  intros (Nx & Ny & H)%ltb_lt. rewrite leb_value by assumption.
  apply Z.leb_gt. exact H.
Qed.

Lemma leb_trans (x y z : float) :
  PrimFloat.leb x y = true -> PrimFloat.leb y z = true ->
  PrimFloat.leb x z = true.
Proof.
  intros (Nx & Ny & H1)%leb_le (_ & Nz & H2)%leb_le.
  rewrite leb_value by assumption. apply Z.leb_le. lia.
Qed.

Lemma leb_ltb_trans (x y z : float) :
  PrimFloat.leb x y = true -> PrimFloat.ltb y z = true ->
  PrimFloat.leb x z = true.
Proof.
  intros (Nx & Ny & H1)%leb_le (_ & Nz & H2)%ltb_lt.
  rewrite leb_value by assumption. apply Z.leb_le. lia.
Qed.

Lemma ltb_false_leb (x y : float) :
  PrimFloat.is_nan x = false -> PrimFloat.is_nan y = false ->
  PrimFloat.ltb x y = false -> PrimFloat.leb y x = true.
Proof.
  intros Nx Ny H. rewrite ltb_value in H by assumption.
  rewrite leb_value by assumption. apply Z.ltb_ge in H. apply Z.leb_le. exact H.
Qed.

(** [y - x > 0] exactly when [x < y]: the comparator of the commit preview
    orders two numbers as [<] does. *)
Lemma sub_gtb (x y : float) :
  PrimFloat.is_nan x = false -> PrimFloat.is_nan y = false ->
  gtb (y - x) 0 = PrimFloat.ltb x y.
Proof.
  intros Nx Ny. rewrite (ltb_value x y) by assumption.
  apply is_nan_Prim2SF in Nx, Ny.
  unfold gtb. rewrite FloatAxioms.ltb_spec, sub_spec.
  change (Prim2SF 0) with (S754_zero false).
  apply SFsub_pos; auto using Prim2SF_valid.
Qed.

(** Adding the alias bonus to a number yields a number. *)
Lemma add_bonus_notNaN (s : float) :
  PrimFloat.is_nan s = false -> PrimFloat.is_nan (s + 0.05) = false.
Proof.
  intros N. apply is_nan_Prim2SF in N. apply is_nan_Prim2SF.
  rewrite add_spec. pose proof (Prim2SF_valid s) as V.
  change (Prim2SF 0.05) with (S754_finite false 7205759403792794 (-57)).
  destruct (Prim2SF s) as [sx | sx | | sx mx ex]; try congruence;
    unfold SF64add; cbn [SFadd]; try discriminate.
  cbn [valid_binary] in V. destruct (bounded_inv _ _ V) as (He & _).
  destruct (_ + _) as [| D | D]; cbn [binary_normalize]; [discriminate | |].
  - pose proof (binary_round_sign false D (Z.min ex (-57)) ltac:(lia)) as Hs.
    intros E. rewrite E in Hs. exact Hs.
  - pose proof (binary_round_sign true D (Z.min ex (-57)) ltac:(lia)) as Hs.
    intros E. rewrite E in Hs. exact Hs.
Qed.

Lemma Math_min_notNaN (a b : float) :
  PrimFloat.is_nan a = false -> PrimFloat.is_nan b = false ->
  PrimFloat.is_nan (Math_min a b) = false.
Proof.
  intros Na Nb. unfold Math_min. rewrite Na, Nb. cbn [orb].
  destruct (PrimFloat.ltb a b); [exact Na |].
  destruct (PrimFloat.ltb b a); [exact Nb |].
  now destruct (PrimFloat.get_sign a).
Qed.

End Binary64.

(** * Risk classifier *)

(** C3. [riskOf] answers HIGH when the score is missing, LOW when
    [score >= 0.85], MEDIUM when [0.6 <= score < 0.85] and HIGH when
    [score < 0.6]; the [source] argument never changes the answer. *)
Theorem riskOf_tiers :
  (forall source, riskOf None source = HIGH) /\
  (forall s source, geb s 0.85 = true -> riskOf (Some s) source = LOW) /\
  (forall s source,
      geb s 0.6 = true -> PrimFloat.ltb s 0.85 = true ->
      riskOf (Some s) source = MEDIUM) /\
  (forall s source, PrimFloat.ltb s 0.6 = true -> riskOf (Some s) source = HIGH) /\
  (forall score source source', riskOf score source = riskOf score source').
Proof.
  repeat split.
  - intros s source H. unfold riskOf. now rewrite H.
  - intros s source H1 H2. unfold riskOf, geb in *.
    now rewrite (ltb_leb_false _ _ H2), H1.
  - intros s source H. unfold riskOf, geb.
    rewrite (ltb_leb_false _ _ H).
    destruct (PrimFloat.leb 0.85 s) eqn:E; [|reflexivity].
    assert (H6 : PrimFloat.leb 0.6 0.85 = true) by reflexivity.
    pose proof (leb_trans 0.6 0.85 s H6 E) as H'.
    rewrite (ltb_leb_false _ _ H) in H'. discriminate.
Qed.

(** The tiers at and around the two thresholds. *)
Example riskOf_at_thresholds :
  riskOf (Some 0.85%float) None = LOW /\
  riskOf (Some 0.84%float) (Some "FINNHUB") = MEDIUM /\
  riskOf (Some 0.6%float) None = MEDIUM /\
  riskOf (Some 0.59%float) (Some "POLYGON") = HIGH /\
  riskOf (Some PrimFloat.nan) None = HIGH.
Proof. repeat split; reflexivity. Qed.

(** C9. The classifier is antitone: of two scores [s1 < s2], the lower one
    is classified at least as severe, with HIGH above MEDIUM above LOW
    (the severities of [rk]). *)
Theorem riskOf_antitone (s1 s2 : float) (src1 src2 : option string) :
  PrimFloat.ltb s1 s2 = true ->
  (rk (riskOf (Some s2) src2) <= rk (riskOf (Some s1) src1))%Z.
Proof.
  intros Hlt. unfold riskOf, geb.
  destruct (PrimFloat.leb 0.85 s1) eqn:E1.
  - rewrite (leb_ltb_trans _ _ _ E1 Hlt). reflexivity.
  - destruct (PrimFloat.leb 0.6 s1) eqn:E2.
    + rewrite (leb_ltb_trans _ _ _ E2 Hlt).
      destruct (PrimFloat.leb 0.85 s2); cbn; lia.
    + destruct (PrimFloat.leb 0.85 s2), (PrimFloat.leb 0.6 s2); cbn; lia.
Qed.

Lemma riskOf_antitone_witness :
  PrimFloat.ltb 0.5 0.9 = true /\
  (rk (riskOf (Some 0.9%float) None) <= rk (riskOf (Some 0.5%float) None))%Z.
Proof.
  split; [reflexivity | apply (riskOf_antitone 0.5 0.9); reflexivity].
Defined.

(** * Sorting with a comparator *)

Section ArraySort.

Context {A : Type} (comparefn : A -> A -> float).

Lemma insertSorted_perm (x : A) (l : list A) :
  insertSorted comparefn x l ≡ₚ x :: l.
Proof.
  induction l as [| y l IH]; cbn [insertSorted]; [reflexivity |].
  destruct (gtb (comparefn x y) 0); [| reflexivity].
  rewrite IH. apply Permutation_swap.
Qed.

Lemma Array_sort_perm (l : list A) : Array_sort comparefn l ≡ₚ l.
Proof.
  induction l as [| x l IH]; cbn; [reflexivity |].
  fold (Array_sort comparefn l). now rewrite insertSorted_perm, IH.
Qed.

(** The sort yields a sorted array whenever, on the elements at hand, the
    comparator decides an order that is transitive. *)
Context (P : A -> Prop) (R : A -> A -> Prop).
Hypothesis keep_ok : forall a b, P a -> P b -> gtb (comparefn a b) 0 = false -> R a b.
Hypothesis swap_ok : forall a b, P a -> P b -> gtb (comparefn a b) 0 = true -> R b a.
Hypothesis R_trans : forall a b c, P a -> P b -> P c -> R a b -> R b c -> R a c.

Lemma insertSorted_sorted (x : A) (l : list A) :
  P x -> Forall P l -> StronglySorted R l ->
  StronglySorted R (insertSorted comparefn x l).
Proof.
  intros Px. induction l as [| y l IH]; intros Pl Hs; cbn [insertSorted].
  - repeat constructor.
  - apply Forall_cons in Pl as [Py Pl].
    apply StronglySorted_inv in Hs as [Hs Hy].
    destruct (gtb (comparefn x y) 0) eqn:E.
    + constructor; [now apply IH |].
      rewrite insertSorted_perm. constructor; [now apply swap_ok | exact Hy].
    + assert (Rxy : R x y) by now apply keep_ok.
      constructor; [now constructor |].
      constructor; [exact Rxy |].
      rewrite Forall_forall in Hy, Pl |- *.
      intros z Hz. apply (R_trans x y z); auto.
Qed.

Lemma Array_sort_sorted (l : list A) :
  Forall P l -> StronglySorted R (Array_sort comparefn l).
Proof.
  induction l as [| x l IH]; intros Pl; cbn.
  - constructor.
  - apply Forall_cons in Pl as [Px Pl]. fold (Array_sort comparefn l).
    apply insertSorted_sorted; [exact Px | | now apply IH].
    now rewrite Array_sort_perm.
Qed.

End ArraySort.

Lemma StronglySorted_lookup {A} (R : A -> A -> Prop) (l : list A) :
  StronglySorted R l ->
  forall i j a b, (i < j)%nat -> l !! i = Some a -> l !! j = Some b -> R a b.
Proof.
  induction 1 as [| x l Hs IH Hx]; intros i j a b Hij Hi Hj.
  - rewrite lookup_nil in Hi. discriminate.
  - destruct j as [| j]; [lia |]. cbn in Hj.
    destruct i as [| i]; cbn in Hi.
    + injection Hi as <-. rewrite Forall_forall in Hx. apply Hx.
      eapply list_elem_of_lookup_2. exact Hj.
    + apply (IH i j); [lia | assumption | assumption].
Qed.

(** * Overrides *)

(** C10. Clearing the override of a row (setting it to the empty value)
    deletes that row's entry of the override map and nothing else: every
    other row keeps its override, and the learned aliases (and the rows)
    are as before; so the alias learned when the override was set is still
    there after the override has been cleared. *)
Theorem clear_override_frame (rowIndex : nat) (st : AppState) :
  overrides (setOverrideForRow rowIndex "" st) = delete rowIndex (overrides st) /\
  overrides (setOverrideForRow rowIndex "" st) !! rowIndex = None /\
  (forall j, j <> rowIndex ->
     overrides (setOverrideForRow rowIndex "" st) !! j = overrides st !! j) /\
  aliases (setOverrideForRow rowIndex "" st) = aliases st /\
  rows (setOverrideForRow rowIndex "" st) = rows st /\
  (forall value r,
     truthy value = true ->
     List.find (fun rr => (row_index rr =? rowIndex)%nat) (rows st) = Some r ->
     truthy (norm (rowName r)) = true ->
     aliases (setOverrideForRow rowIndex "" (setOverrideForRow rowIndex value st))
       !! norm (rowName r) = Some value).
Proof.
  repeat split.
  - cbn. apply lookup_delete_eq.
  - intros j Hj. cbn. now apply lookup_delete_ne.
  - intros value r Hv Hr Hn.
    unfold setOverrideForRow at 1. cbn [truthy negb].
    unfold setOverrideForRow. rewrite Hv, Hr. cbn [negb mbind option_bind].
    rewrite Hn. cbn. apply lookup_insert_eq.
Qed.

(** Set, then cleared: the override is gone and the alias stays. *)
Example clear_override_keeps_alias :
  overrides (setOverrideForRow 0 "" (setOverrideForRow 0 "AAPL" exampleState)) = ∅ /\
  aliases (setOverrideForRow 0 "" (setOverrideForRow 0 "AAPL" exampleState))
    = {[ "apple inc." := "AAPL" ]}.
Proof. split; reflexivity. Qed.

(** * Commit preview *)


Lemma changeOf_filled (ov : gmap nat string) (r : PreviewRow) :
  truthyOpt (ov !! row_index r) = false -> row_status r = FILLED ->
  changeOf ov r =
    top ← topCandidate r;
    if truthy (cand_symbol top)
    then Some {| pc_index := row_index r;
                 pc_name := default "" (rowName r);
                 pc_fromSymbol := default "" (rowSymbol r);
                 pc_toSymbol := cand_symbol top;
                 pc_score := cand_score top;
                 pc_source := cand_source top;
                 pc_risk := riskOf (cand_score top) (cand_source top) |}
    else None.
Proof.
  intros Hov Hst. unfold changeOf. rewrite Hov, Hst. cbn [negb andb String.eqb].
  change (String.eqb FILLED FILLED) with true. cbn [negb andb].
  destruct (topCandidate r) as [top |]; cbn; [| reflexivity].
  destruct (truthy (cand_symbol top)); reflexivity.
Qed.




(** The change-set of the example session, most severe first. *)
Example commit_preview_example :
  map (fun c => (pc_index c, pc_toSymbol c, pc_risk c))
      (pendingChanges (openCommitPreview overriddenState))
  = [ (2, "TSLA", HIGH); (1, "MSFT", MEDIUM); (0, "AAPL", LOW) ]%nat.
Proof. reflexivity. Qed.

(** C7. The change-set is a function of the rows and of the override map
    alone: two sessions with the same rows and overrides get the same
    change-set in the same order, whatever their clocks, their sources of
    identifiers, their logs, filters or aliases. *)
Theorem commit_preview_deterministic (st1 st2 : AppState) :
  rows st1 = rows st2 -> overrides st1 = overrides st2 -> rows st1 <> [] ->
  pendingChanges (openCommitPreview st1) = pendingChanges (openCommitPreview st2) /\
  commitPreviewOpen (openCommitPreview st1) = commitPreviewOpen (openCommitPreview st2).
Proof.
  intros Hr Ho Hne. unfold openCommitPreview. rewrite <- Hr, <- Ho.
  destruct (rows st1); [contradiction |]. split; reflexivity.
Qed.

Lemma commit_preview_deterministic_witness :
  (rows overriddenState = rows laterState /\
   overrides overriddenState = overrides laterState /\
   rows overriddenState <> [] /\
   clock overriddenState <> clock laterState /\
   entropy overriddenState <> entropy laterState /\
   aliases overriddenState <> aliases laterState) /\
  (pendingChanges (openCommitPreview overriddenState)
     = pendingChanges (openCommitPreview laterState) /\
   commitPreviewOpen (openCommitPreview overriddenState)
     = commitPreviewOpen (openCommitPreview laterState)).
Proof.
  split.
  - repeat split; try reflexivity; discriminate.
  - apply (commit_preview_deterministic overriddenState laterState);
      [reflexivity | reflexivity | discriminate].
Defined.

(** ** Review order *)

Lemma gtb_compareChanges (a b : PendingChange) :
  PrimFloat.is_nan (sortKey a) = false -> PrimFloat.is_nan (sortKey b) = false ->
  gtb (compareChanges a b) 0 =
    ((rk (pc_risk a) <? rk (pc_risk b))%Z
     || ((rk (pc_risk a) =? rk (pc_risk b))%Z
         && PrimFloat.ltb (sortKey a) (sortKey b))).
Proof.
  intros Na Nb. unfold compareChanges.
  destruct (Z.eqb_spec (rk (pc_risk a) - rk (pc_risk b)) 0) as [E | E]; cbn [negb].
  - replace (rk (pc_risk a) <? rk (pc_risk b))%Z with false
      by (symmetry; apply Z.ltb_ge; lia).
    replace (rk (pc_risk a) =? rk (pc_risk b))%Z with true
      by (symmetry; apply Z.eqb_eq; lia).
    cbn [orb andb]. now apply sub_gtb.
  - replace (rk (pc_risk a) =? rk (pc_risk b))%Z with false
      by (symmetry; apply Z.eqb_neq; lia).
    rewrite orb_false_r.
    destruct (Z.ltb_spec 0 (rk (pc_risk a) - rk (pc_risk b))).
    + replace (rk (pc_risk a) <? rk (pc_risk b))%Z with false
        by (symmetry; apply Z.ltb_ge; lia).
      reflexivity.
    + replace (rk (pc_risk a) <? rk (pc_risk b))%Z with true
        by (symmetry; apply Z.ltb_lt; lia).
      reflexivity.
Qed.

Lemma changeLe_keep (a b : PendingChange) :
  PrimFloat.is_nan (sortKey a) = false -> PrimFloat.is_nan (sortKey b) = false ->
  gtb (compareChanges a b) 0 = false -> changeLe a b.
Proof.
  intros Na Nb. rewrite gtb_compareChanges by assumption.
  intros [H1 H2]%orb_false_elim. apply Z.ltb_ge in H1. unfold changeLe.
  destruct (Z.eqb_spec (rk (pc_risk a)) (rk (pc_risk b))) as [E | E]; [| lia].
  right. split; [exact E |]. cbn [andb] in H2. now apply ltb_false_leb.
Qed.

Lemma changeLe_swap (a b : PendingChange) :
  PrimFloat.is_nan (sortKey a) = false -> PrimFloat.is_nan (sortKey b) = false ->
  gtb (compareChanges a b) 0 = true -> changeLe b a.
Proof.
  intros Na Nb. rewrite gtb_compareChanges by assumption.
  intros [H1 | [H1 H2]%andb_prop]%orb_prop; unfold changeLe.
  - apply Z.ltb_lt in H1. now left.
  - apply Z.eqb_eq in H1. right. split; [lia |].
    apply ltb_lt in H2 as (_ & _ & H2). rewrite leb_value by assumption.
    apply Z.leb_le. lia.
Qed.

Lemma changeLe_trans (a b c : PendingChange) :
  changeLe a b -> changeLe b c -> changeLe a c.
Proof.
  unfold changeLe. intros [H1 | [H1 K1]] [H2 | [H2 K2]]; try (left; lia).
  right. split; [lia |]. exact (leb_trans _ _ _ K2 K1).
Qed.

Lemma sortKey_comparable (cands : list Candidate) (o : option Candidate) :
  Forall (fun c => match cand_score c with
                   | Some s => PrimFloat.is_nan s = false
                   | None => True
                   end) cands ->
  (forall c, o = Some c -> c ∈ cands) ->
  PrimFloat.is_nan (default (-1)%float (o ≫= cand_score)) = false.
Proof.
  intros Hc Ho. destruct o as [c |]; cbn; [| reflexivity].
  rewrite Forall_forall in Hc. specialize (Hc c (Ho c eq_refl)).
  destruct (cand_score c); cbn; [exact Hc | reflexivity].
Qed.

Lemma changeOf_comparable (ov : gmap nat string) (r : PreviewRow) (c : PendingChange) :
  scoresComparable r -> changeOf ov r = Some c ->
  PrimFloat.is_nan (sortKey c) = false.
Proof.
  unfold scoresComparable, changeOf, sortKey, topCandidate. intros Hc.
  destruct (negb (truthyOpt (ov !! row_index r)) && _); [discriminate |].
  destruct (negb (truthyOpt _)); [discriminate |].
  intros [= <-]. cbn [pc_score].
  destruct (truthyOpt (ov !! row_index r)); apply (sortKey_comparable _ _ Hc).
  - intros c. destruct (row_candidates r) as [l |]; cbn; [| discriminate].
    intros H. apply find_some in H as [H _]. now apply list_elem_of_In.
  - intros c. destruct (row_candidates r) as [l |]; cbn; [| discriminate].
    destruct l; cbn; [discriminate |]. intros [= <-]. apply list_elem_of_here.
Qed.

Lemma buildChanges_comparable (ov : gmap nat string) (rs : list PreviewRow) :
  Forall scoresComparable rs ->
  Forall (fun c => PrimFloat.is_nan (sortKey c) = false) (buildChanges ov rs).
Proof.
  intros H. apply Forall_forall. intros c Hc.
  rewrite Forall_forall in H.
  unfold buildChanges in Hc. apply list_elem_of_omap in Hc as (r & Hr & Hrc).
  eapply changeOf_comparable; eauto.
Qed.

Lemma pendingChanges_sorted (st : AppState) :
  rows st <> [] -> Forall scoresComparable (rows st) ->
  StronglySorted changeLe (pendingChanges (openCommitPreview st)).
Proof.
  intros Hne Hs. unfold openCommitPreview.
  destruct (rows st) eqn:E; [contradiction |]. rewrite <- E in *.
  cbn [pendingChanges setCommitPreviewOpen setPendingChanges].
  apply Array_sort_sorted
    with (P := fun c => PrimFloat.is_nan (sortKey c) = false).
  - apply changeLe_keep.
  - apply changeLe_swap.
  - intros a b c _ _ _. apply changeLe_trans.
  - now apply buildChanges_comparable.
Qed.

(** C6. The change-set shown for review holds the changes built from the
    rows, each as often as it was built, and is sorted by risk, most severe
    first, and within one tier by score, highest first (a change without a
    score counts as [-1]): of two entries, the earlier one is of a tier at
    least as severe, and of a score at least as high when the tiers are the
    same.  The rows' scores are taken not to be NaN. *)
Theorem changes_sorted (st : AppState) :
  rows st <> [] -> Forall scoresComparable (rows st) ->
  pendingChanges (openCommitPreview st)
    ≡ₚ buildChanges (overrides st) (rows st) /\
  forall i j a b,
    (i < j)%nat ->
    pendingChanges (openCommitPreview st) !! i = Some a ->
    pendingChanges (openCommitPreview st) !! j = Some b ->
    (rk (pc_risk b) <= rk (pc_risk a))%Z /\
    (pc_risk a = pc_risk b -> PrimFloat.leb (sortKey b) (sortKey a) = true).
Proof.
  intros Hne Hs. split.
  - unfold openCommitPreview. destruct (rows st) eqn:E; [contradiction |].
    cbn [pendingChanges setCommitPreviewOpen setPendingChanges].
    apply Array_sort_perm.
  - intros i j a b Hij Hi Hj.
    pose proof (StronglySorted_lookup _ _ (pendingChanges_sorted st Hne Hs)
                  i j a b Hij Hi Hj) as [H | [H K]].
    + split; [lia |]. intros E. rewrite E in H. lia.
    + split; [lia |]. intros _. exact K.
Qed.

(** The session with its three rows overridden: the three changes built in
    row order (AAPL, MSFT, TSLA) are shown with TSLA, the HIGH one, first
    and AAPL, the LOW one, last. *)
Lemma changes_sorted_witness :
  (rows overriddenState <> [] /\ Forall scoresComparable (rows overriddenState)) /\
  map (fun c => (pc_toSymbol c, pc_score c, pc_risk c))
      (buildChanges (overrides overriddenState) (rows overriddenState))
    = [ ("AAPL", Some 0.9%float, LOW); ("MSFT", Some 0.7%float, MEDIUM);
        ("TSLA", Some 0.5%float, HIGH) ] /\
  map (fun c => (pc_toSymbol c, pc_score c, pc_risk c))
      (pendingChanges (openCommitPreview overriddenState))
    = [ ("TSLA", Some 0.5%float, HIGH); ("MSFT", Some 0.7%float, MEDIUM);
        ("AAPL", Some 0.9%float, LOW) ] /\
  pendingChanges (openCommitPreview overriddenState)
    ≡ₚ buildChanges (overrides overriddenState) (rows overriddenState) /\
  forall i j a b,
    (i < j)%nat ->
    pendingChanges (openCommitPreview overriddenState) !! i = Some a ->
    pendingChanges (openCommitPreview overriddenState) !! j = Some b ->
    (rk (pc_risk b) <= rk (pc_risk a))%Z /\
    (pc_risk a = pc_risk b -> PrimFloat.leb (sortKey b) (sortKey a) = true).
Proof.
  assert (H : Forall scoresComparable (rows overriddenState))
    by (repeat constructor).
  split; [split; [discriminate | exact H] |].
  split; [reflexivity |]. split; [reflexivity |].
  apply (changes_sorted overriddenState); [discriminate | exact H].
Defined.

(** Two changes of one tier, and one without a score among them. *)
Example changes_sorted_within_tier :
  map (fun c => (pc_toSymbol c, pc_score c, pc_risk c))
    (Array_sort compareChanges
       [ {| pc_index := 0; pc_name := "a"; pc_fromSymbol := ""; pc_toSymbol := "A";
            pc_score := Some 0.2%float; pc_source := None; pc_risk := HIGH |};
         {| pc_index := 1; pc_name := "b"; pc_fromSymbol := ""; pc_toSymbol := "B";
            pc_score := None; pc_source := None; pc_risk := HIGH |};
         {| pc_index := 2; pc_name := "c"; pc_fromSymbol := ""; pc_toSymbol := "C";
            pc_score := Some 0.9%float; pc_source := None; pc_risk := LOW |};
         {| pc_index := 3; pc_name := "d"; pc_fromSymbol := ""; pc_toSymbol := "D";
            pc_score := Some 0.5%float; pc_source := None; pc_risk := HIGH |} ])
  = [ ("D", Some 0.5%float, HIGH); ("A", Some 0.2%float, HIGH);
      ("B", None, HIGH); ("C", Some 0.9%float, LOW) ].
Proof. reflexivity. Qed.

(** ** Rows that came with their Symbol *)

(** C2, as the preview does it.  A row whose original Symbol is not blank
    is resolved as FILLED; without an override, the change the preview
    then holds for it, if any, proposes the symbol of the row's top
    candidate and records the original Symbol as the symbol it replaces;
    there is no change when the row has no top candidate with a symbol. *)
Theorem filled_row_commit (ov : gmap nat string) (r : PreviewRow) :
  isBlank (rowSymbol r) = false ->
  row_status r
    = resolveStatus (rowSymbol r) (rowName r) (default [] (row_candidates r)) ->
  truthyOpt (ov !! row_index r) = false ->
  row_status r = FILLED /\
  changeOf ov r =
    top ← topCandidate r;
    if truthy (cand_symbol top)
    then Some {| pc_index := row_index r;
                 pc_name := default "" (rowName r);
                 pc_fromSymbol := default "" (rowSymbol r);
                 pc_toSymbol := cand_symbol top;
                 pc_score := cand_score top;
                 pc_source := cand_source top;
                 pc_risk := riskOf (cand_score top) (cand_source top) |}
    else None.
Proof.
  intros Hb Hst Hov.
  assert (E : row_status r = FILLED)
    by (rewrite Hst; unfold resolveStatus; now rewrite Hb).
  split; [exact E |]. now apply changeOf_filled.
Qed.

Lemma filled_row_commit_witness :
  (isBlank (rowSymbol filledRow) = false /\
   row_status filledRow
     = resolveStatus (rowSymbol filledRow) (rowName filledRow)
         (default [] (row_candidates filledRow)) /\
   truthyOpt ((∅ : gmap nat string) !! row_index filledRow) = false) /\
  row_status filledRow = FILLED /\
  changeOf ∅ filledRow =
    top ← topCandidate filledRow;
    if truthy (cand_symbol top)
    then Some {| pc_index := row_index filledRow;
                 pc_name := default "" (rowName filledRow);
                 pc_fromSymbol := default "" (rowSymbol filledRow);
                 pc_toSymbol := cand_symbol top;
                 pc_score := cand_score top;
                 pc_source := cand_source top;
                 pc_risk := riskOf (cand_score top) (cand_source top) |}
    else None.
Proof.
  split; [repeat split |].
  apply (filled_row_commit ∅ filledRow); reflexivity.
Defined.

(** A row that came with the Symbol AAPL and resolved with the candidate
    APLE is FILLED, and without an override the preview proposes APLE for
    it, not AAPL; one that resolved without candidates gets no change. *)
Lemma filled_row_commit_differs :
  (row_status filledRow = FILLED /\
   rowSymbol filledRow = Some "AAPL" /\
   committedSymbol ∅ filledRow = Some "APLE" /\
   Some "APLE" <> rowSymbol filledRow) /\
  (row_status filledBareRow = FILLED /\
   rowSymbol filledBareRow = Some "MSFT" /\
   committedSymbol ∅ filledBareRow = None).
Proof. repeat split; try reflexivity. discriminate. Qed.

(** * Learned aliases *)

Local Open Scope list_scope.

Section FindIndex.

Context {A : Type} (p : A -> bool).

Lemma findIndex_first (pre : list A) (hit : A) (post : list A) :
  Forall (fun c => p c = false) pre -> p hit = true ->
  findIndex p (pre ++ hit :: post) = Some (length pre).
Proof.
  intros Hpre Hhit. induction Hpre as [| c pre Hc _ IH]; cbn.
  - now rewrite Hhit.
  - now rewrite Hc, IH.
Qed.

Lemma findIndex_none (l : list A) :
  Forall (fun c => p c = false) l -> findIndex p l = None.
Proof.
  induction 1 as [| c l Hc _ IH]; cbn; [reflexivity |]. now rewrite Hc, IH.
Qed.

(** An array either has a first element that satisfies [p], or none. *)
Lemma first_match (l : list A) :
  (exists pre hit post,
      l = pre ++ hit :: post /\ Forall (fun c => p c = false) pre /\ p hit = true)
  \/ Forall (fun c => p c = false) l.
Proof.
  induction l as [| c l [(pre & hit & post & -> & Hpre & Hhit) | IH]].
  - right. constructor.
  - destruct (p c) eqn:E.
    + left. exists [], c, (pre ++ hit :: post). auto.
    + left. exists (c :: pre), hit, post. auto.
  - destruct (p c) eqn:E.
    + left. exists [], c, l. auto.
    + right. now constructor.
Qed.

End FindIndex.

Lemma moveToTop_hit (learned : string) (pre : list Candidate) (hit : Candidate)
  (post : list Candidate) :
  Forall (fun c => matchesLearned learned c = false) pre ->
  matchesLearned learned hit = true ->
  moveToTop learned (pre ++ hit :: post) = Some (bumped hit :: pre ++ post).
Proof.
  intros Hpre Hhit. unfold moveToTop.
  rewrite (findIndex_first _ _ _ _ Hpre Hhit). cbn [mbind option_bind].
  rewrite list_lookup_middle by reflexivity. cbn [mbind option_bind].
  now rewrite delete_middle.
Qed.

Lemma moveToTop_miss (learned : string) (cands : list Candidate) :
  Forall (fun c => matchesLearned learned c = false) cands ->
  moveToTop learned cands = None.
Proof. intros H. unfold moveToTop. now rewrite (findIndex_none _ _ H). Qed.

Lemma applyLearned_hit (learned : string) (pre : list Candidate) (hit : Candidate)
  (post : list Candidate) :
  truthy learned = true ->
  Forall (fun c => matchesLearned learned c = false) pre ->
  matchesLearned learned hit = true ->
  applyLearned (Some learned) (pre ++ hit :: post)
    = (bumped hit :: pre ++ post, true).
Proof.
  intros Ht Hpre Hhit. unfold applyLearned. rewrite Ht.
  replace (0 <? length (pre ++ hit :: post))%nat with true
    by (symmetry; apply Nat.ltb_lt; rewrite length_app; cbn; lia).
  cbn [andb]. now rewrite moveToTop_hit.
Qed.

Lemma applyLearned_miss (learned : string) (cands : list Candidate) :
  Forall (fun c => matchesLearned learned c = false) cands ->
  applyLearned (Some learned) cands = (cands, false).
Proof.
  intros H. unfold applyLearned. rewrite (moveToTop_miss _ _ H).
  now destruct (truthy learned && _).
Qed.

(** The alias step either leaves the array alone or moves the first match
    to the front. *)
Lemma applyLearned_cases (learned : option string) (cands : list Candidate) :
  applyLearned learned cands = (cands, false) \/
  exists l pre hit post,
    learned = Some l /\ truthy l = true /\ cands = pre ++ hit :: post /\
    Forall (fun c => matchesLearned l c = false) pre /\
    matchesLearned l hit = true /\
    applyLearned learned cands = (bumped hit :: pre ++ post, true).
Proof.
  destruct learned as [l |]; [| now left].
  destruct (truthy l) eqn:Ht; [| left; unfold applyLearned; now rewrite Ht].
  destruct (first_match (matchesLearned l) cands)
    as [(pre & hit & post & -> & Hpre & Hhit) | Hmiss].
  - right. exists l, pre, hit, post. repeat split; try assumption.
    now apply applyLearned_hit.
  - left. now apply applyLearned_miss.
Qed.

Lemma ltb_leb (x y : float) :
  PrimFloat.ltb x y = true -> PrimFloat.leb x y = true.
Proof.
  intros (Nx & Ny & H)%ltb_lt. rewrite leb_value by assumption.
  apply Z.leb_le. lia.
Qed.

Lemma leb_refl (x : float) :
  PrimFloat.is_nan x = false -> PrimFloat.leb x x = true.
Proof. intros N. rewrite leb_value by assumption. apply Z.leb_refl. Qed.

(** [Math.min(a, b)] is NaN or at most [b]. *)
Lemma Math_min_cap (a b : float) :
  PrimFloat.is_nan b = false ->
  PrimFloat.is_nan (Math_min a b) = true \/
  PrimFloat.leb (Math_min a b) b = true.
Proof.
  intros Nb. unfold Math_min.
  destruct (PrimFloat.is_nan a) eqn:Na; cbn [orb]; [now left |].
  rewrite Nb. right.
  destruct (PrimFloat.ltb a b) eqn:E1; [now apply ltb_leb |].
  destruct (PrimFloat.ltb b a) eqn:E2; [now apply leb_refl |].
  destruct (PrimFloat.get_sign a); [now apply ltb_false_leb | now apply leb_refl].
Qed.

Lemma nullish_twice {A} (a b : option A) :
  nullish (nullish a b) b = nullish a b.
Proof. destruct a, b; reflexivity. Qed.

(** C4. When a learned alias (a symbol, so not the empty string) is known
    for the row's normalized name: if some candidate's symbol is the alias
    up to case, the first such candidate is taken out of its place, its
    score [s] becomes [Math.min(s + 0.05, 0.999)] (a missing score stays
    missing), and it is put back at position 0, the other candidates
    following in their original order; if no candidate's symbol is the
    alias, the candidates are as the server sent them. *)
Theorem alias_application (als : gmap string string) (i : nat) (r : ServerRow)
  (learned : string) :
  als !! norm (rowName (normalizeRow als i r).1) = Some learned ->
  truthy learned = true ->
  let cands := default [] (srv_candidates r) in
  (forall pre hit post,
      cands = pre ++ hit :: post ->
      Forall (fun c => matchesLearned learned c = false) pre ->
      matchesLearned learned hit = true ->
      row_candidates (normalizeRow als i r).1 = Some (bumped hit :: pre ++ post) /\
      cand_symbol (bumped hit) = cand_symbol hit /\
      cand_name (bumped hit) = cand_name hit /\
      cand_type (bumped hit) = cand_type hit /\
      cand_source (bumped hit) = cand_source hit /\
      cand_score (bumped hit)
        = (fun s => Math_min (s + 0.05) 0.999) <$> cand_score hit /\
      (forall s', cand_score (bumped hit) = Some s' ->
                  PrimFloat.is_nan s' = true \/ PrimFloat.leb s' 0.999 = true)) /\
  (Exists (fun c => matchesLearned learned c = true) cands ->
   exists pre hit post,
     cands = pre ++ hit :: post /\
     Forall (fun c => matchesLearned learned c = false) pre /\
     matchesLearned learned hit = true) /\
  (Forall (fun c => matchesLearned learned c = false) cands ->
   row_candidates (normalizeRow als i r).1 = Some cands).
Proof.
  intros Hal Ht cands.
  assert (Hnm : rowName (normalizeRow als i r).1
                = nullish (srv_Name r) (srv_input r ≫= in_Name)).
  { unfold normalizeRow, rowName.
    destruct (applyLearned _ _); cbn. apply nullish_twice. }
  rewrite Hnm in Hal.
  assert (Hrow : row_candidates (normalizeRow als i r).1
                 = Some (applyLearned (Some learned) cands).1).
  { unfold normalizeRow.
    rewrite nullish_twice, Hal. fold cands. now destruct (applyLearned (Some learned) cands). }
  split; [| split].
  - intros pre hit post Hsplit Hpre Hhit.
    split; [rewrite Hrow, Hsplit; now rewrite applyLearned_hit |].
    do 4 (split; [reflexivity |]).
    split; [cbn; destruct (cand_score hit); reflexivity |].
    intros s'. cbn [bumped cand_score].
    destruct (cand_score hit) as [s |]; [| discriminate].
    intros [= <-]. now apply Math_min_cap.
  - intros Hex. destruct (first_match (matchesLearned learned) cands) as [H | H];
      [exact H |].
    rewrite Exists_exists in Hex. destruct Hex as (c & Hc & Hm).
    rewrite Forall_forall in H. rewrite (H c Hc) in Hm. discriminate.
  - intros Hmiss. rewrite Hrow. now rewrite applyLearned_miss.
Qed.

Lemma alias_application_witness :
  (learnedAliases !! norm (rowName (normalizeRow learnedAliases 0 serverApple).1)
     = Some "aple" /\
   truthy "aple" = true) /\
  row_candidates (normalizeRow learnedAliases 0 serverApple).1
    = Some [ mkCandidate "APLE" "Apple Hospitality REIT"
               (Some 0.45000000000000001%float) "POLYGON";
             candAAPL ].
Proof.
  split; [split; reflexivity |].
  destruct (alias_application learnedAliases 0 serverApple "aple" eq_refl eq_refl)
    as [H _].
  destruct (H [candAAPL] candAPLE [] eq_refl ltac:(repeat constructor) eq_refl)
    as [H' _].
  exact H'.
Defined.

(** The whole handler on that response. *)
Example onChooseFile_example :
  rows (onChooseFile [serverApple] (setAliases learnedAliases exampleState))
    = [ {| row_index := 0; row_status := AMBIGUOUS;
           row_candidates :=
             Some [ mkCandidate "APLE" "Apple Hospitality REIT"
                      (Some 0.45000000000000001%float) "POLYGON";
                    candAAPL ];
           row_notes := None;
           row_input := Some {| in_Name := Some "  Apple Inc. "; in_Symbol := None |};
           row_Name := Some "  Apple Inc. "; row_Symbol := None;
           row_proposed := None |} ] /\
  appliedAliasCount
    (onChooseFile [serverApple] (setAliases learnedAliases exampleState)) = 1%nat /\
  overrides (onChooseFile [serverApple] (setAliases learnedAliases exampleState)) = ∅.
Proof. repeat split; reflexivity. Qed.

(** ** The alias step applied twice *)

(** A candidate whose score the bump leaves as it is (it has none, or
    [Math.min(s + 0.05, 0.999)] is [s] again) is left as it is. *)
Lemma bumped_fixed (c : Candidate) :
  cand_score (bumped c) = cand_score c -> bumped c = c.
Proof.
  destruct c as [sy nm ty sc so]. unfold bumped. cbn. intros H. now f_equal.
Qed.

(** C8, as the code does it.  Applying the alias step to its own result
    keeps every candidate at its place, the moved one at position 0, and
    changes nothing but that candidate's score, which is bumped a second
    time: [Math.min(s' + 0.05, 0.999)] of the score [s'] the first step
    left (a missing score stays missing).  When the first step did not
    apply, neither does the second.  The second step leaves the array as
    the first left it exactly when the first did not apply or the second
    bump does not change the score of the candidate at position 0: that
    candidate has no score, or [Math.min(s' + 0.05, 0.999)] is [s'] again,
    as it is once the score has reached the cap. *)
Theorem alias_twice (learned : option string) (cands : list Candidate) :
  let once := applyLearned learned cands in
  let twice := applyLearned learned once.1 in
  twice.2 = once.2 /\
  cand_symbol <$> twice.1 = cand_symbol <$> once.1 /\
  cand_name <$> twice.1 = cand_name <$> once.1 /\
  cand_type <$> twice.1 = cand_type <$> once.1 /\
  cand_source <$> twice.1 = cand_source <$> once.1 /\
  tail twice.1 = tail once.1 /\
  head twice.1 = (if once.2 then bumped else id) <$> head once.1 /\
  (cand_score <$> head twice.1)
    = (fun o : option float =>
         if once.2 then (fun s => Math_min (s + 0.05) 0.999) <$> o else o)
        <$> (cand_score <$> head once.1) /\
  (twice.1 = once.1 <->
   once.2 = false \/
   exists top,
     head once.1 = Some top /\ cand_score (bumped top) = cand_score top).
Proof.
  intros once twice. subst once twice.
  destruct (applyLearned_cases learned cands)
    as [E | (l & pre & hit & post & -> & Ht & -> & Hpre & Hhit & E)].
  - rewrite E. cbn [fst snd]. rewrite E. cbn [fst snd].
    repeat split; try reflexivity.
    + now destruct cands.
    + destruct cands as [| c ?]; [reflexivity |]. cbn. now destruct (cand_score c).
    + now left.
  - rewrite E. cbn [fst snd].
    pose proof (applyLearned_hit l [] (bumped hit) (pre ++ post) Ht
                  ltac:(constructor) Hhit) as E2.
    cbn [app] in E2. rewrite E2.
    cbn [fst snd]. do 8 (split; [reflexivity |]). split.
    + intros H. right. exists (bumped hit). split; [reflexivity |].
      apply (f_equal (fun l => head l ≫= cand_score)) in H. exact H.
    + intros [H | (top & Htop & H)]; [discriminate |].
      cbn in Htop. assert (Et : top = bumped hit) by congruence. subst top.
      now rewrite (bumped_fixed _ H).
Qed.

(** Two steps on a candidate scored 0.5: the first leaves 0.55, the second
    0.6 and a bit, so the second step does change the array. *)
Lemma alias_twice_bumps_again :
  (applyLearned (Some "aapl") [candAAPL; candAPLE]).1
    = [ mkCandidate "AAPL" "Apple Inc" (Some 0.55000000000000004%float) "FINNHUB";
        candAPLE ] /\
  (applyLearned (Some "aapl")
     (applyLearned (Some "aapl") [candAAPL; candAPLE]).1).1
    = [ mkCandidate "AAPL" "Apple Inc" (Some 0.60000000000000009%float) "FINNHUB";
        candAPLE ] /\
  (applyLearned (Some "aapl")
     (applyLearned (Some "aapl") [candAAPL; candAPLE]).1).1
    <> (applyLearned (Some "aapl") [candAAPL; candAPLE]).1.
Proof.
  repeat split; try reflexivity.
  intros H.
  apply (f_equal (fun l => match head l ≫= cand_score with
                           | Some x => PrimFloat.eqb x 0.55000000000000004
                           | None => false
                           end)) in H.
  vm_compute in H. discriminate.
Qed.

(** Two steps on a candidate scored 0.97, and on one without a score: the
    first step applies (it caps the score at 0.999, it moves the unscored
    candidate to the front) and the second changes nothing. *)
Example alias_twice_at_the_cap :
  (applyLearned (Some "aapl")
     [mkCandidate "AAPL" "Apple Inc" (Some 0.97%float) "FINNHUB"; candAPLE])
    = ([mkCandidate "AAPL" "Apple Inc" (Some 0.999%float) "FINNHUB"; candAPLE],
       true) /\
  (applyLearned (Some "aapl")
     [mkCandidate "AAPL" "Apple Inc" (Some 0.999%float) "FINNHUB"; candAPLE])
    = ([mkCandidate "AAPL" "Apple Inc" (Some 0.999%float) "FINNHUB"; candAPLE],
       true) /\
  (applyLearned (Some "aapl")
     [candAPLE; mkCandidate "AAPL" "Apple Inc" None "FINNHUB"])
    = ([mkCandidate "AAPL" "Apple Inc" None "FINNHUB"; candAPLE], true) /\
  (applyLearned (Some "aapl")
     [mkCandidate "AAPL" "Apple Inc" None "FINNHUB"; candAPLE])
    = ([mkCandidate "AAPL" "Apple Inc" None "FINNHUB"; candAPLE], true).
Proof. repeat split; reflexivity. Qed.

(** ** Scores stay numbers *)

(** A preview response is JSON, so its scores are not NaN; the alias step
    keeps them so, which is what the review order asks of the rows. *)
Lemma bumped_comparable (c : Candidate) :
  match cand_score c with
  | Some s => PrimFloat.is_nan s = false
  | None => True
  end ->
  match cand_score (bumped c) with
  | Some s => PrimFloat.is_nan s = false
  | None => True
  end.
Proof.
  cbn. destruct (cand_score c) as [s |]; [| trivial].
  intros N. apply Math_min_notNaN; [now apply add_bonus_notNaN | reflexivity].
Qed.

Lemma normalizeRow_comparable (als : gmap string string) (i : nat) (r : ServerRow) :
  Forall (fun c => match cand_score c with
                   | Some s => PrimFloat.is_nan s = false
                   | None => True
                   end) (default [] (srv_candidates r)) ->
  scoresComparable (normalizeRow als i r).1.
Proof.
  intros H. unfold scoresComparable, normalizeRow.
  set (learned := als !! _).
  destruct (applyLearned_cases learned (default [] (srv_candidates r)))
    as [E | (l & pre & hit & post & _ & _ & Hs & _ & _ & E)]; rewrite E; cbn.
  - exact H.
  - rewrite Hs in H. apply Forall_app in H as [Hpre Hpost].
    apply Forall_cons in Hpost as [Hhit Hpost].
    constructor; [now apply bumped_comparable | now apply Forall_app].
Qed.

(** [data.map] with the callback of the preview: it throws when the
    callback throws on some row, and else returns what the callback returns
    row by row. *)
Lemma Array_map_callback {A B} (throws : A -> bool) (f : nat -> A -> B)
  (l : list A) :
  Array_map (fun i x => if throws x then None else Some (f i x)) l
  = if existsb throws l then None else Some (imap f l).
Proof.
  revert f. induction l as [| x l IH]; intros f; [reflexivity |].
  cbn [Array_map existsb]. destruct (throws x); [reflexivity |].
  cbn [mbind option_bind orb].
  change ((fun i x => if throws x then None else Some (f i x)) ∘ S)
    with (fun i x => if throws x then None else Some ((f ∘ S) i x)).
  rewrite IH. now destruct (existsb throws l).
Qed.

(** The two ways of the handler. *)
Lemma onChooseFile_cases (data : list ServerRow) (st : AppState) :
  (existsb (normalizeThrows (aliases st)) data = true /\
   rows (onChooseFile data st) = []) \/
  (existsb (normalizeThrows (aliases st)) data = false /\
   rows (onChooseFile data st) = fst <$> imap (normalizeRow (aliases st)) data /\
   appliedAliasCount (onChooseFile data st)
     = countApplied (imap (normalizeRow (aliases st)) data)).
Proof.
  unfold onChooseFile, normalizeCallback. cbn [aliases setOverrides setRows].
  rewrite Array_map_callback.
  destruct (existsb _ data); [left; now split | right].
  split; [reflexivity |].
  match goal with
  | |- context [if ?b then _ else _] => destruct b
  end; split; reflexivity.
Qed.

Lemma onChooseFile_comparable (data : list ServerRow) (st : AppState) :
  Forall (fun r => Forall (fun c => match cand_score c with
                                    | Some s => PrimFloat.is_nan s = false
                                    | None => True
                                    end) (default [] (srv_candidates r))) data ->
  Forall scoresComparable (rows (onChooseFile data st)).
Proof.
  intros H. destruct (onChooseFile_cases data st) as [(_ & E) | (_ & E & _)];
    rewrite E; [constructor |].
  apply Forall_forall. intros x Hx.
  apply list_elem_of_fmap in Hx as (p & -> & Hp).
  apply elem_of_lookup_imap in Hp as (i & r & -> & Hr).
  apply normalizeRow_comparable.
  rewrite Forall_forall in H. apply H.
  eapply list_elem_of_lookup_2. exact Hr.
Qed.

(** * Bulk apply *)

Lemma bulkTop_Some (m : float) (r : PreviewRow) (top : Candidate) :
  bulkTop m r = Some top <->
  (row_status r = FILLED \/ row_status r = AMBIGUOUS) /\
  topCandidate r = Some top /\
  (forall s, cand_score top = Some s -> PrimFloat.ltb s m = false).
Proof.
  unfold bulkTop, topCandidate.
  destruct (row_candidates r) as [[| c l] |]; cbn [default length mbind option_bind head].
  - rewrite andb_false_r. split; [discriminate | intros (_ & H & _); discriminate].
  - rewrite andb_true_r.
    destruct (String.eqb_spec (row_status r) FILLED) as [E1 | E1];
      [| destruct (String.eqb_spec (row_status r) AMBIGUOUS) as [E2 | E2]];
      cbn [orb].
    3: { split; [discriminate | intros ([] & _); contradiction]. }
    all: destruct (cand_score c) as [s |] eqn:Es;
      [ destruct (PrimFloat.ltb s m) eqn:El | ].
    all: split;
      [ intros [= <-] || discriminate
      | intros (_ & [= <-] & H) ].
    all: try (split; [auto | split; [reflexivity |]]).
    all: try (intros s' Hs'; congruence).
    all: try reflexivity.
    all: try (rewrite (H s Es) in El; discriminate).
  - rewrite andb_false_r. split; [discriminate | intros (_ & H & _); discriminate].
Qed.

Section BulkLoop.

Variable m : float.

Lemma bulk_overrides (ov : gmap nat string) (al : gmap string string) (n : nat)
  (l : list PreviewRow) (i : nat) :
  (foldl (bulkStep m) (ov, al, n) l).1.1 !! i =
    match last (bulkWritesIndex m i l) with
    | Some r => cand_symbol <$> bulkTop m r
    | None => ov !! i
    end.
Proof.
  induction l as [| r l IH] using rev_ind; [reflexivity |].
  rewrite foldl_app. cbn [foldl]. unfold bulkWritesIndex in *.
  rewrite List.filter_app. cbn [List.filter].
  destruct (foldl (bulkStep m) (ov, al, n) l) as [[next als] changed].
  cbn [fst] in IH. unfold bulkStep.
  destruct (bulkTop m r) as [top |] eqn:Et; cbn [fst].
  - rewrite bool_decide_eq_true_2 by eauto. rewrite andb_true_r.
    destruct (Nat.eqb_spec (row_index r) i) as [E | E].
    + rewrite last_snoc, Et, <- E. cbn. apply lookup_insert_eq.
    + rewrite app_nil_r, lookup_insert_ne by assumption. exact IH.
  - rewrite bool_decide_eq_false_2 by (intros [? ?]; discriminate).
    rewrite andb_false_r, app_nil_r. exact IH.
Qed.

Lemma bulk_aliases (ov : gmap nat string) (al : gmap string string) (n : nat)
  (l : list PreviewRow) (k : string) :
  (foldl (bulkStep m) (ov, al, n) l).1.2 !! k =
    match last (bulkWritesAlias m k l) with
    | Some r => cand_symbol <$> bulkTop m r
    | None => al !! k
    end.
Proof.
  induction l as [| r l IH] using rev_ind; [reflexivity |].
  rewrite foldl_app. cbn [foldl]. unfold bulkWritesAlias in *.
  rewrite List.filter_app. cbn [List.filter].
  destruct (foldl (bulkStep m) (ov, al, n) l) as [[next als] changed].
  cbn [fst snd] in IH. unfold bulkStep.
  destruct (bulkTop m r) as [top |] eqn:Et; cbn [fst snd].
  - rewrite bool_decide_eq_true_2 by eauto. rewrite andb_true_r.
    destruct (String.eqb_spec (norm (rowName r)) k) as [E | E]; cbn [andb].
    + rewrite E. destruct (truthy k) eqn:Hk; cbn [andb].
      * rewrite last_snoc, Et. cbn. apply lookup_insert_eq.
      * rewrite app_nil_r. exact IH.
    + rewrite app_nil_r. destruct (truthy (norm (rowName r)));
        [rewrite lookup_insert_ne by assumption |]; exact IH.
  - rewrite bool_decide_eq_false_2 by (intros [? ?]; discriminate).
    rewrite andb_false_r, app_nil_r. exact IH.
Qed.

Lemma bulkWritesIndex_fresh (l : list PreviewRow) (i : nat) :
  i ∉ row_index <$> l -> bulkWritesIndex m i l = [].
Proof.
  unfold bulkWritesIndex. induction l as [| x l IH]; [reflexivity |].
  cbn [fmap list_fmap List.filter]. intros [Hx Hl]%not_elem_of_cons.
  destruct (Nat.eqb_spec (row_index x) i) as [E | _]; [congruence |].
  cbn [andb]. now apply IH.
Qed.

(** Among rows of distinct indices, the writes under the index of an
    applied row are that row's alone. *)
Lemma bulkWritesIndex_NoDup (l : list PreviewRow) (r : PreviewRow) :
  NoDup (row_index <$> l) -> r ∈ l -> is_Some (bulkTop m r) ->
  bulkWritesIndex m (row_index r) l = [r].
Proof.
  intros Hnd Hin Hs. induction l as [| x l IH]; [inversion Hin |].
  cbn [fmap list_fmap] in Hnd. apply NoDup_cons in Hnd as [Hx Hnd].
  apply elem_of_cons in Hin as [-> | Hin].
  - unfold bulkWritesIndex. cbn [List.filter].
    rewrite Nat.eqb_refl, bool_decide_eq_true_2 by assumption. cbn [andb].
    f_equal. now apply bulkWritesIndex_fresh.
  - unfold bulkWritesIndex. cbn [List.filter].
    destruct (Nat.eqb_spec (row_index x) (row_index r)) as [E | _].
    + exfalso. apply Hx. rewrite E. now apply list_elem_of_fmap_2.
    + cbn [andb]. now apply IH.
Qed.

(** No write under an index, or an alias key, that no applied row has. *)
Lemma bulkWritesIndex_none (l : list PreviewRow) (i : nat) :
  (forall r, r ∈ l -> row_index r = i -> bulkTop m r = None) ->
  bulkWritesIndex m i l = [].
Proof.
  unfold bulkWritesIndex. induction l as [| x l IH]; intros H; [reflexivity |].
  cbn [List.filter].
  destruct (Nat.eqb_spec (row_index x) i) as [E | _]; cbn [andb].
  - rewrite (H x (list_elem_of_here _ _) E).
    rewrite bool_decide_eq_false_2 by (intros [? ?]; discriminate).
    apply IH. intros r Hr. apply H. now apply list_elem_of_further.
  - apply IH. intros r Hr. apply H. now apply list_elem_of_further.
Qed.

Lemma bulkWritesAlias_none (l : list PreviewRow) (k : string) :
  (forall r, r ∈ l -> norm (rowName r) = k -> truthy k = true ->
             bulkTop m r = None) ->
  bulkWritesAlias m k l = [].
Proof.
  unfold bulkWritesAlias. induction l as [| x l IH]; intros H; [reflexivity |].
  cbn [List.filter].
  destruct (String.eqb_spec (norm (rowName x)) k) as [E | _]; cbn [andb].
  - destruct (truthy k) eqn:Hk; cbn [andb].
    + rewrite (H x (list_elem_of_here _ _) E eq_refl).
      rewrite bool_decide_eq_false_2 by (intros [? ?]; discriminate).
      apply IH. intros r Hr. apply H. now apply list_elem_of_further.
    + apply IH. intros r Hr. apply H. now apply list_elem_of_further.
  - apply IH. intros r Hr. apply H. now apply list_elem_of_further.
Qed.

End BulkLoop.

Lemma bulkApply_overrides (st : AppState) :
  overrides (bulkApplyTopCandidates st)
  = (foldl (bulkStep (bulkMinScore st)) (overrides st, aliases st, 0%nat)
       (filtered st)).1.1.
Proof.
  unfold bulkApplyTopCandidates.
  now destruct (foldl _ _ _) as [[next als] changed].
Qed.

Lemma bulkApply_aliases (st : AppState) :
  aliases (bulkApplyTopCandidates st)
  = (foldl (bulkStep (bulkMinScore st)) (overrides st, aliases st, 0%nat)
       (filtered st)).1.2.
Proof.
  unfold bulkApplyTopCandidates.
  now destruct (foldl _ _ _) as [[next als] changed].
Qed.

(** C5, as the code does it.  Bulk apply goes through the rows shown under
    the active filter.  A row is applied when its status is FILLED or
    AMBIGUOUS, it has a top candidate, and that candidate's score is not a
    number below the threshold (so also when the score is missing).  The
    override of an index is then the top symbol of the last applied row of
    that index (of the one such row, when the indices are distinct), and
    the alias of a non-empty normalized name is the top symbol of the last
    applied row of that name; no alias is recorded for an empty name.  An
    index or a name that no applied row has keeps what it had.  With top
    scores 0.9, 0.7 and 0.5 and the threshold 0.8, only the first row gets
    an override. *)
Theorem bulk_apply_spec :
  (forall m r top,
      bulkTop m r = Some top <->
      (row_status r = FILLED \/ row_status r = AMBIGUOUS) /\
      topCandidate r = Some top /\
      (forall s, cand_score top = Some s -> PrimFloat.ltb s m = false)) /\
  (forall st i,
      overrides (bulkApplyTopCandidates st) !! i =
        match last (bulkWritesIndex (bulkMinScore st) i (filtered st)) with
        | Some r => cand_symbol <$> bulkTop (bulkMinScore st) r
        | None => overrides st !! i
        end) /\
  (forall st k,
      aliases (bulkApplyTopCandidates st) !! k =
        match last (bulkWritesAlias (bulkMinScore st) k (filtered st)) with
        | Some r => cand_symbol <$> bulkTop (bulkMinScore st) r
        | None => aliases st !! k
        end) /\
  (forall st r top,
      NoDup (row_index <$> filtered st) -> r ∈ filtered st ->
      bulkTop (bulkMinScore st) r = Some top ->
      overrides (bulkApplyTopCandidates st) !! row_index r
        = Some (cand_symbol top)) /\
  (forall st i,
      (forall r, r ∈ filtered st -> row_index r = i ->
                 bulkTop (bulkMinScore st) r = None) ->
      overrides (bulkApplyTopCandidates st) !! i = overrides st !! i) /\
  (forall st k,
      (forall r, r ∈ filtered st -> norm (rowName r) = k -> truthy k = true ->
                 bulkTop (bulkMinScore st) r = None) ->
      aliases (bulkApplyTopCandidates st) !! k = aliases st !! k) /\
  (forall st, rows (bulkApplyTopCandidates st) = rows st) /\
  (overrides (bulkApplyTopCandidates exampleState) = {[ 0%nat := "AAPL" ]} /\
   aliases (bulkApplyTopCandidates exampleState) = {[ "apple inc." := "AAPL" ]}).
Proof.
  split; [exact bulkTop_Some |].
  split; [intros st i; rewrite bulkApply_overrides; apply bulk_overrides |].
  split; [intros st k; rewrite bulkApply_aliases; apply bulk_aliases |].
  split.
  { intros st r top Hnd Hin Ht.
    rewrite bulkApply_overrides, bulk_overrides.
    rewrite bulkWritesIndex_NoDup by eauto. cbn. now rewrite Ht. }
  split.
  { intros st i H. rewrite bulkApply_overrides, bulk_overrides.
    now rewrite bulkWritesIndex_none. }
  split.
  { intros st k H. rewrite bulkApply_aliases, bulk_aliases.
    now rewrite bulkWritesAlias_none. }
  split.
  { intros st. unfold bulkApplyTopCandidates.
    now destruct (foldl _ _ _) as [[next als] changed]. }
  split; reflexivity.
Qed.

(** The example, row by row. *)
Example bulk_apply_threshold :
  map (fun r => (row_index r, cand_score <$> topCandidate r,
                 overrides (bulkApplyTopCandidates exampleState) !! row_index r))
      (filtered exampleState)
  = [ (0%nat, Some (Some 0.9%float), Some "AAPL");
      (1%nat, Some (Some 0.7%float), None);
      (2%nat, Some (Some 0.5%float), None) ].
Proof. reflexivity. Qed.

(** A row whose top candidate has no score is applied whatever the
    threshold (here 0.8), and, its name being blank, no alias is recorded
    for it. *)
Lemma bulk_apply_unscored :
  filtered unscoredState = [unscoredRow] /\
  bulkMinScore unscoredState = 0.8%float /\
  (topCandidate unscoredRow ≫= cand_score) = None /\
  overrides unscoredState !! 0%nat = None /\
  overrides (bulkApplyTopCandidates unscoredState) !! 0%nat = Some "NFLX" /\
  norm (rowName unscoredRow) = "" /\
  aliases (bulkApplyTopCandidates unscoredState) = aliases unscoredState.
Proof. repeat split; reflexivity. Qed.

(** * Normalized names *)

Local Open Scope string_scope.

Ltac all_chars c :=
  destruct c as [[] [] [] [] [] [] [] []]; reflexivity.

Lemma lowerChar_upperChar (c : ascii) : lowerChar (upperChar c) = lowerChar c.
Proof. all_chars c. Qed.

Lemma lowerChar_lowerChar (c : ascii) : lowerChar (lowerChar c) = lowerChar c.
Proof. all_chars c. Qed.

Lemma upperChar_lowerChar (c : ascii) : upperChar (lowerChar c) = upperChar c.
Proof. all_chars c. Qed.

Lemma isWhiteSpace_upperChar (c : ascii) : isWhiteSpace (upperChar c) = isWhiteSpace c.
Proof. all_chars c. Qed.

Lemma isWhiteSpace_lowerChar (c : ascii) : isWhiteSpace (lowerChar c) = isWhiteSpace c.
Proof. all_chars c. Qed.

Lemma mapString_mapString (f g : ascii -> ascii) (s : string) :
  mapString f (mapString g s) = mapString (fun c => f (g c)) s.
Proof. induction s as [| c s IH]; cbn; [reflexivity | now rewrite IH]. Qed.

Lemma mapString_ext (f g : ascii -> ascii) (s : string) :
  (forall c, f c = g c) -> mapString f s = mapString g s.
Proof. intros H. induction s as [| c s IH]; cbn; [reflexivity | now rewrite H, IH]. Qed.

Section TrimMap.

(** A map of characters that keeps white space white and the rest not. *)
Variable f : ascii -> ascii.
Hypothesis f_space : forall c, isWhiteSpace (f c) = isWhiteSpace c.

Lemma trimStart_mapString (s : string) :
  trimStart (mapString f s) = mapString f (trimStart s).
Proof.
  induction s as [| c s IH]; simpl; [reflexivity |].
  rewrite f_space. now destruct (isWhiteSpace c).
Qed.

Lemma trimEnd_mapString (s : string) :
  trimEnd (mapString f s) = mapString f (trimEnd s).
Proof.
  induction s as [| c s IH]; simpl; [reflexivity |].
  rewrite IH, f_space.
  destruct (trimEnd s); simpl; [now destruct (isWhiteSpace c) | reflexivity].
Qed.

Lemma trim_mapString (s : string) : trim (mapString f s) = mapString f (trim s).
Proof. unfold trim. now rewrite trimStart_mapString, trimEnd_mapString. Qed.

End TrimMap.

Lemma trimEnd_allWhiteSpace (s : string) :
  allWhiteSpace s = true -> trimEnd s = "".
Proof.
  induction s as [| c s IH]; simpl; [reflexivity |].
  intros [Hc Hs]%andb_prop. now rewrite (IH Hs), Hc.
Qed.

Lemma trimStart_allWhiteSpace (s : string) :
  allWhiteSpace s = true -> trimStart s = "".
Proof.
  induction s as [| c s IH]; simpl; [reflexivity |].
  intros [Hc Hs]%andb_prop. now rewrite Hc, IH.
Qed.

Lemma trimStart_pad (pre s : string) :
  allWhiteSpace pre = true -> trimStart (pre ++ s) = trimStart s.
Proof.
  induction pre as [| c pre IH]; simpl; [reflexivity |].
  intros [Hc Hs]%andb_prop. now rewrite Hc, IH.
Qed.

Lemma trimEnd_pad (s post : string) :
  allWhiteSpace post = true -> trimEnd (s ++ post) = trimEnd s.
Proof.
  intros H. induction s as [| c s IH]; simpl.
  - now apply trimEnd_allWhiteSpace.
  - now rewrite IH.
Qed.

Lemma trimStart_append_pad (s post : string) :
  allWhiteSpace post = true ->
  trimEnd (trimStart (s ++ post)) = trimEnd (trimStart s).
Proof.
  intros H. induction s as [| c s IH]; simpl.
  - now rewrite trimStart_allWhiteSpace.
  - destruct (isWhiteSpace c); [exact IH |].
    change (String c (s ++ post)) with (String c s ++ post).
    now apply trimEnd_pad.
Qed.

Lemma trim_pad (pre s post : string) :
  allWhiteSpace pre = true -> allWhiteSpace post = true ->
  trim (pre ++ s ++ post) = trim s.
Proof.
  intros Hpre Hpost. unfold trim.
  rewrite trimStart_pad by assumption. now apply trimStart_append_pad.
Qed.

(** What [trimEnd] leaves starts as its argument does. *)
Lemma trimStart_trimEnd (s : string) :
  trimStart (trimEnd (trimStart s)) = trimEnd (trimStart s).
Proof.
  induction s as [| c s IH]; simpl; [reflexivity |].
  destruct (isWhiteSpace c) eqn:Hc; [exact IH |].
  simpl. destruct (trimEnd s); simpl; rewrite ?Hc; simpl; now rewrite ?Hc.
Qed.

Lemma trimEnd_trimEnd (s : string) : trimEnd (trimEnd s) = trimEnd s.
Proof.
  induction s as [| c s IH]; simpl; [reflexivity |].
  destruct (trimEnd s) as [| d t] eqn:E.
  - destruct (isWhiteSpace c) eqn:Hc; simpl; [reflexivity | now rewrite Hc].
  - cbn [trimEnd] in *. now rewrite IH.
Qed.

Lemma trim_trim (s : string) : trim (trim s) = trim s.
Proof. unfold trim. now rewrite trimStart_trimEnd, trimEnd_trimEnd. Qed.

(** X1. For a name of ASCII characters, the key under which an alias is
    stored and looked up does not depend on the case of the name's
    letters, nor on ASCII white space around the name, and normalizing a
    normalized name changes nothing. *)
Theorem norm_insensitive (s : string) :
  isASCII s = true ->
  norm (Some (toUpperCase s)) = norm (Some s) /\
  norm (Some (toLowerCase s)) = norm (Some s) /\
  (forall pre post,
      allWhiteSpace pre = true -> allWhiteSpace post = true ->
      norm (Some (pre ++ s ++ post)) = norm (Some s)) /\
  norm (Some (norm (Some s))) = norm (Some s) /\
  norm None = "".
Proof.
  intros _. unfold norm, toUpperCase, toLowerCase. cbn [default from_option id].
  split; [| split; [| split; [| split]]].
  - rewrite (trim_mapString _ isWhiteSpace_upperChar), mapString_mapString.
    apply mapString_ext, lowerChar_upperChar.
  - rewrite (trim_mapString _ isWhiteSpace_lowerChar), mapString_mapString.
    apply mapString_ext, lowerChar_lowerChar.
  - intros pre post Hpre Hpost. now rewrite trim_pad.
  - rewrite (trim_mapString _ isWhiteSpace_lowerChar), trim_trim, mapString_mapString.
    apply mapString_ext, lowerChar_lowerChar.
  - reflexivity.
Qed.

Lemma norm_insensitive_witness :
  isASCII "Apple Inc." = true /\
  norm (Some "APPLE INC.") = norm (Some "Apple Inc.") /\
  norm (Some "apple inc.") = norm (Some "Apple Inc.") /\
  norm (Some "  Apple Inc. ") = norm (Some "Apple Inc.").
Proof.
  split; [reflexivity |].
  destruct (norm_insensitive "Apple Inc." eq_refl) as (H1 & H2 & H3 & _).
  split; [exact H1 |]. split; [exact H2 |].
  exact (H3 "  " " " eq_refl eq_refl).
Defined.

(** Three spellings of one name. *)
Example norm_example :
  norm (Some "  Apple Inc. ") = "apple inc." /\
  norm (Some "APPLE INC.") = "apple inc." /\
  norm (Some "apple inc.") = "apple inc.".
Proof. repeat split; reflexivity. Qed.

Lemma toLowerCase_toLowerCase (s : string) :
  toLowerCase (toLowerCase s) = toLowerCase s.
Proof.
  unfold toLowerCase. rewrite mapString_mapString.
  apply mapString_ext, lowerChar_lowerChar.
Qed.

(** A normalized name has no capital letter, so of the names inherited
    from [Object.prototype] it can only be one of the two without one. *)
Lemma norm_inherited (s : option string) :
  norm s ∈ objectPrototypeKeys ->
  norm s = "constructor" \/ norm s = "__proto__".
Proof.
  assert (E : toLowerCase (norm s) = norm s)
    by (unfold norm; apply toLowerCase_toLowerCase).
  revert E. generalize (norm s). intros k E H.
  unfold objectPrototypeKeys in H.
  repeat (apply elem_of_cons in H as [-> | H]);
    try (vm_compute in E; discriminate); auto.
  inversion H.
Qed.

(** The match of a candidate's symbol with a learned alias does not depend
    on the case of either. *)
Lemma matchesLearned_case (learned : string) (c : Candidate) :
  matchesLearned (toLowerCase learned) c = matchesLearned learned c /\
  matchesLearned (toUpperCase learned) c = matchesLearned learned c.
Proof.
  unfold matchesLearned, toUpperCase, toLowerCase.
  rewrite !mapString_mapString.
  rewrite (mapString_ext _ upperChar learned upperChar_lowerChar).
  split; [reflexivity |]. f_equal. apply mapString_ext. intros ch. all_chars ch.
Qed.

(** * Status counts and the rows shown *)

Local Open Scope list_scope.

Lemma countStep_spec (base : Counts) (r : PreviewRow) :
  let b := fun s : string => if String.eqb (row_status r) s then 1%nat else 0%nat in
  cnt_FILLED (countStep base r) = (cnt_FILLED base + b FILLED)%nat /\
  cnt_AMBIGUOUS (countStep base r) = (cnt_AMBIGUOUS base + b AMBIGUOUS)%nat /\
  cnt_NOT_FOUND (countStep base r) = (cnt_NOT_FOUND base + b NOT_FOUND)%nat /\
  cnt_UNCHANGED (countStep base r) = (cnt_UNCHANGED base + b UNCHANGED)%nat /\
  cnt_ENRICHED (countStep base r) = (cnt_ENRICHED base + b ENRICHED)%nat.
Proof.
  unfold countStep. cbv zeta.
  destruct (String.eqb_spec (row_status r) FILLED) as [E | ?];
    [rewrite ?E; cbn; repeat split; lia |].
  destruct (String.eqb_spec (row_status r) AMBIGUOUS) as [E | ?];
    [rewrite ?E; cbn; repeat split; lia |].
  destruct (String.eqb_spec (row_status r) NOT_FOUND) as [E | ?];
    [rewrite ?E; cbn; repeat split; lia |].
  destruct (String.eqb_spec (row_status r) UNCHANGED) as [E | ?];
    [rewrite ?E; cbn; repeat split; lia |].
  destruct (String.eqb_spec (row_status r) ENRICHED) as [E | ?];
    rewrite ?E; cbn; repeat split; lia.
Qed.

Lemma foldl_countStep (rs : list PreviewRow) :
  forall base,
    cnt_FILLED (foldl countStep base rs)
      = (cnt_FILLED base + length (withStatus FILLED rs))%nat /\
    cnt_AMBIGUOUS (foldl countStep base rs)
      = (cnt_AMBIGUOUS base + length (withStatus AMBIGUOUS rs))%nat /\
    cnt_NOT_FOUND (foldl countStep base rs)
      = (cnt_NOT_FOUND base + length (withStatus NOT_FOUND rs))%nat /\
    cnt_UNCHANGED (foldl countStep base rs)
      = (cnt_UNCHANGED base + length (withStatus UNCHANGED rs))%nat /\
    cnt_ENRICHED (foldl countStep base rs)
      = (cnt_ENRICHED base + length (withStatus ENRICHED rs))%nat.
Proof.
  unfold withStatus.
  induction rs as [| r rs IH]; intros base; cbn [foldl List.filter length].
  - repeat split; lia.
  - destruct (IH (countStep base r)) as (H1 & H2 & H3 & H4 & H5).
    destruct (countStep_spec base r) as (K1 & K2 & K3 & K4 & K5).
    rewrite H1, H2, H3, H4, H5, K1, K2, K3, K4, K5.
    repeat split;
      match goal with
      | |- context [String.eqb (row_status r) ?s] =>
          destruct (String.eqb (row_status r) s); cbn [length]; lia
      end.
Qed.

Lemma withStatus_partition (rs : list PreviewRow) :
  (length (withStatus FILLED rs) + length (withStatus AMBIGUOUS rs)
   + length (withStatus NOT_FOUND rs) + length (withStatus UNCHANGED rs)
   + length (withStatus ENRICHED rs)
   + length (List.filter (fun r => negb (isPreviewStatus (row_status r))) rs))%nat
  = length rs.
Proof.
  unfold withStatus, isPreviewStatus.
  induction rs as [| r rs IH]; [reflexivity |]. cbn [List.filter].
  destruct (String.eqb_spec (row_status r) FILLED) as [E | ?];
    [rewrite E; cbn; lia |].
  destruct (String.eqb_spec (row_status r) AMBIGUOUS) as [E | ?];
    [rewrite E; cbn; lia |].
  destruct (String.eqb_spec (row_status r) NOT_FOUND) as [E | ?];
    [rewrite E; cbn; lia |].
  destruct (String.eqb_spec (row_status r) UNCHANGED) as [E | ?];
    [rewrite E; cbn; lia |].
  destruct (String.eqb_spec (row_status r) ENRICHED) as [E | ?];
    [rewrite ?E; cbn; lia |].
  cbn. lia.
Qed.

Lemma computeCounts_withStatus (rs : list PreviewRow) :
  cnt_FILLED (computeCounts rs) = length (withStatus FILLED rs) /\
  cnt_AMBIGUOUS (computeCounts rs) = length (withStatus AMBIGUOUS rs) /\
  cnt_NOT_FOUND (computeCounts rs) = length (withStatus NOT_FOUND rs) /\
  cnt_UNCHANGED (computeCounts rs) = length (withStatus UNCHANGED rs) /\
  cnt_ENRICHED (computeCounts rs) = length (withStatus ENRICHED rs).
Proof.
  unfold computeCounts.
  destruct (foldl_countStep rs zeroCounts) as (H1 & H2 & H3 & H4 & H5).
  cbn in H1, H2, H3, H4, H5. now rewrite H1, H2, H3, H4, H5.
Qed.

(** X2. Each of the five counters of [computeCounts] is the number of rows
    of that status; a row of any other status is counted nowhere, so the
    five counters and the rows of other statuses add up to the number of
    rows. *)
Theorem computeCounts_partition (rs : list PreviewRow) :
  cnt_FILLED (computeCounts rs) = length (withStatus FILLED rs) /\
  cnt_AMBIGUOUS (computeCounts rs) = length (withStatus AMBIGUOUS rs) /\
  cnt_NOT_FOUND (computeCounts rs) = length (withStatus NOT_FOUND rs) /\
  cnt_UNCHANGED (computeCounts rs) = length (withStatus UNCHANGED rs) /\
  cnt_ENRICHED (computeCounts rs) = length (withStatus ENRICHED rs) /\
  (cnt_FILLED (computeCounts rs) + cnt_AMBIGUOUS (computeCounts rs)
   + cnt_NOT_FOUND (computeCounts rs) + cnt_UNCHANGED (computeCounts rs)
   + cnt_ENRICHED (computeCounts rs)
   + length (List.filter (fun r => negb (isPreviewStatus (row_status r))) rs))%nat
  = length rs.
Proof.
  destruct (computeCounts_withStatus rs) as (H1 & H2 & H3 & H4 & H5).
  rewrite H1, H2, H3, H4, H5. repeat split. apply withStatus_partition.
Qed.

(** A response with a status the client does not know. *)
Example computeCounts_unknown_status :
  computeCounts
    (mkRow 3 "PENDING" [] "Acme" None :: mkRow 4 "filled" [] "Acme" None
       :: exampleRows)
  = {| cnt_FILLED := 0; cnt_AMBIGUOUS := 3; cnt_NOT_FOUND := 0;
       cnt_UNCHANGED := 0; cnt_ENRICHED := 0 |}.
Proof. reflexivity. Qed.

(** ** The rows shown *)

Lemma filtered_blank (st : AppState) :
  allWhiteSpace (qDebounced st) = true ->
  filtered st =
    List.filter
      (fun r => String.eqb (statusFilter st) "ALL"
                || String.eqb (row_status r) (statusFilter st))
      (rows st).
Proof.
  intros Hq. unfold filtered, trim.
  rewrite (trimStart_allWhiteSpace _ Hq). cbn [trimEnd toLowerCase mapString truthy negb].
  induction (rows st) as [| r rs IH]; [reflexivity |]. cbn [List.filter].
  rewrite IH.
  now destruct (String.eqb (statusFilter st) "ALL"),
               (String.eqb (row_status r) (statusFilter st)).
Qed.

Lemma filter_true {A} (l : list A) : List.filter (fun _ => true) l = l.
Proof. induction l as [| x l IH]; cbn; [reflexivity | now rewrite IH]. Qed.

Lemma List_filter_sublist {A} (p : A -> bool) (l : list A) :
  List.filter p l `sublist_of` l.
Proof.
  induction l as [| x l IH]; cbn; [constructor |].
  destruct (p x); now constructor.
Qed.

(** X3. The rows shown are rows of the session, in their order; under a
    status chip other than ALL every row shown has that status; and under
    ALL with a search box that is empty or of white space only, every row
    is shown. *)
Theorem filtered_rows (st : AppState) :
  filtered st `sublist_of` rows st /\
  (statusFilter st <> "ALL" ->
   Forall (fun r => row_status r = statusFilter st) (filtered st)) /\
  (statusFilter st = "ALL" -> allWhiteSpace (qDebounced st) = true ->
   filtered st = rows st).
Proof.
  split; [apply List_filter_sublist |]. split.
  - intros Hs. apply Forall_forall. intros r Hr.
    apply list_elem_of_In, filter_In in Hr as [_ Hr].
    destruct (String.eqb_spec (statusFilter st) "ALL") as [E | _]; [contradiction |].
    cbn [negb andb] in Hr.
    destruct (String.eqb_spec (row_status r) (statusFilter st)) as [E | _];
      [exact E | discriminate].
  - intros Hs Hq. rewrite (filtered_blank _ Hq), Hs. cbn [String.eqb orb].
    change (String.eqb "ALL" "ALL") with true. cbn [orb]. apply filter_true.
Qed.

(** X4. With a blank search box, the number on the selected chip is the
    number of rows shown. *)
Theorem chipCount_shown (st : AppState) :
  statusFilter st ∈ statusChips -> allWhiteSpace (qDebounced st) = true ->
  chipCount (statusFilter st) st = Some (length (filtered st)).
Proof.
  intros Hs Hq. rewrite (filtered_blank _ Hq). unfold chipCount, countOf.
  destruct (computeCounts_withStatus (rows st)) as (H1 & H2 & H3 & H4 & H5).
  rewrite H1, H2, H3, H4, H5. unfold withStatus, statusChips in *.
  repeat (apply elem_of_cons in Hs as [-> | Hs]); [.. | inversion Hs].
  all: cbn [String.eqb orb]; rewrite ?filter_true; try reflexivity.
  all: change (String.eqb _ "ALL") with false; cbn [orb]; reflexivity.
Qed.

Lemma chipCount_shown_witness :
  (statusFilter ambiguousView ∈ statusChips /\
   allWhiteSpace (qDebounced ambiguousView) = true) /\
  chipCount (statusFilter ambiguousView) ambiguousView
    = Some (length (filtered ambiguousView)) /\
  length (filtered ambiguousView) = 3%nat /\
  length (rows ambiguousView) = 5%nat.
Proof.
  assert (H : statusFilter ambiguousView ∈ statusChips)
    by (unfold statusChips; apply list_elem_of_further, list_elem_of_further,
          list_elem_of_here).
  split; [split; [exact H | reflexivity] |].
  split; [apply (chipCount_shown ambiguousView H); reflexivity |].
  split; reflexivity.
Defined.

(** * The preview response *)

Local Open Scope list_scope.

(** The callback throws on a row exactly when the row has a candidate and
    a name that normalizes to [constructor] or [__proto__] for which no
    alias has been learned. *)
Lemma normalizeThrows_spec (als : gmap string string) (sr : ServerRow) :
  normalizeThrows als sr = true <->
  (let nm := norm (nullish (srv_Name sr) (srv_input sr ≫= in_Name)) in
   (nm = "constructor" \/ nm = "__proto__")%string /\
   als !! nm = None /\
   default [] (srv_candidates sr) <> []).
Proof.
  unfold normalizeThrows, getProperty. cbv zeta. rewrite nullish_twice.
  set (nm := norm _).
  destruct (als !! nm) as [l |] eqn:El.
  { split; [discriminate | intros (_ & H & _); discriminate]. }
  destruct (bool_decide (nm ∈ objectPrototypeKeys)) eqn:Ek.
  - apply bool_decide_eq_true_1 in Ek. apply norm_inherited in Ek.
    destruct (default [] (srv_candidates sr)) as [| c l]; cbn.
    + split; [discriminate | intros (_ & _ & H); contradiction].
    + split; [intros _ | reflexivity]. repeat split; [exact Ek | discriminate].
  - apply bool_decide_eq_false_1 in Ek.
    split; [discriminate |]. intros ([E | E] & _); exfalso; apply Ek; rewrite E.
    + apply list_elem_of_here.
    + unfold objectPrototypeKeys.
      do 10 apply list_elem_of_further. apply list_elem_of_here.
Qed.

Lemma onChooseFile_throws (data : list ServerRow) (st : AppState) :
  existsb (normalizeThrows (aliases st)) data = true ->
  onChooseFile data st
  = toast PreviewFailedToast
      (pushLog error PreviewFailed (setOverrides ∅ (setRows [] st))).
Proof.
  intros H. unfold onChooseFile, normalizeCallback.
  cbn [aliases setOverrides setRows].
  now rewrite Array_map_callback, H.
Qed.

Lemma onChooseFile_returns (data : list ServerRow) (st : AppState) :
  existsb (normalizeThrows (aliases st)) data = false ->
  rows (onChooseFile data st) = fst <$> imap (normalizeRow (aliases st)) data /\
  appliedAliasCount (onChooseFile data st)
    = countApplied (imap (normalizeRow (aliases st)) data) /\
  overrides (onChooseFile data st) = ∅ /\
  aliases (onChooseFile data st) = aliases st.
Proof.
  intros H. unfold onChooseFile, normalizeCallback.
  cbn [aliases setOverrides setRows].
  rewrite Array_map_callback, H.
  match goal with
  | |- context [if ?b then _ else _] => destruct b
  end; repeat split; reflexivity.
Qed.

Lemma onChooseFile_rows (data : list ServerRow) (st : AppState) :
  existsb (normalizeThrows (aliases st)) data = false ->
  rows (onChooseFile data st) = fst <$> imap (normalizeRow (aliases st)) data.
Proof. intros H. now destruct (onChooseFile_returns data st H). Qed.

Lemma normalizeRow_fields (als : gmap string string) (i : nat) (sr : ServerRow) :
  row_index (normalizeRow als i sr).1 = default i (srv_index sr) /\
  row_status (normalizeRow als i sr).1 = srv_status sr /\
  row_candidates (normalizeRow als i sr).1
    = Some (applyLearned
              (als !! norm (nullish (srv_Name sr) (srv_input sr ≫= in_Name)))
              (default [] (srv_candidates sr))).1 /\
  (normalizeRow als i sr).2
    = (applyLearned
         (als !! norm (nullish (srv_Name sr) (srv_input sr ≫= in_Name)))
         (default [] (srv_candidates sr))).2 /\
  rowName (normalizeRow als i sr).1 = nullish (srv_Name sr) (srv_input sr ≫= in_Name) /\
  rowSymbol (normalizeRow als i sr).1
    = nullish (srv_Symbol sr) (srv_input sr ≫= in_Symbol).
Proof.
  unfold normalizeRow, rowName, rowSymbol. rewrite nullish_twice.
  destruct (applyLearned _ _) as [cands' hit]. cbn.
  rewrite !nullish_twice. repeat split; reflexivity.
Qed.

(** X5. A preview response of ASCII names and symbols on which the alias
    step does not throw becomes the session's rows one for one and in
    order: the row at position [i]
    carries the served index, or [i] when none was served, and the served
    status, Name and Symbol (those of [input] when the row has none of its
    own).  The overrides of the session before are dropped, and the
    learned aliases are kept as they are.  When no index is served, the
    rows are numbered 0, 1, 2, ... *)
Theorem preview_rows (data : list ServerRow) (st : AppState) :
  forallb asciiServerRow data = true ->
  existsb (normalizeThrows (aliases st)) data = false ->
  length (rows (onChooseFile data st)) = length data /\
  (forall i sr,
      data !! i = Some sr ->
      exists r,
        rows (onChooseFile data st) !! i = Some r /\
        row_index r = default i (srv_index sr) /\
        row_status r = srv_status sr /\
        rowName r = nullish (srv_Name sr) (srv_input sr ≫= in_Name) /\
        rowSymbol r = nullish (srv_Symbol sr) (srv_input sr ≫= in_Symbol)) /\
  overrides (onChooseFile data st) = ∅ /\
  aliases (onChooseFile data st) = aliases st /\
  (Forall (fun sr => srv_index sr = None) data ->
   row_index <$> rows (onChooseFile data st) = seq 0 (length data)).
Proof.
  intros _ Hok. destruct (onChooseFile_returns data st Hok) as (Hr & _ & Ho & Ha).
  rewrite Hr. split; [| split; [| split; [| split]]].
  - now rewrite length_fmap, length_imap.
  - intros i sr Hi. exists (normalizeRow (aliases st) i sr).1.
    rewrite list_lookup_fmap, list_lookup_imap, Hi.
    destruct (normalizeRow_fields (aliases st) i sr) as (H1 & H2 & _ & _ & H5 & H6).
    repeat split; assumption.
  - exact Ho.
  - exact Ha.
  - intros Hnone. apply list_eq. intros i.
    rewrite !list_lookup_fmap, list_lookup_imap.
    destruct (data !! i) as [sr |] eqn:Hi; cbn.
    + destruct (normalizeRow_fields (aliases st) i sr) as (H1 & _). rewrite H1.
      rewrite Forall_forall in Hnone.
      rewrite (Hnone sr (list_elem_of_lookup_2 _ _ _ Hi)). cbn.
      symmetry. apply lookup_seq. split; [reflexivity |].
      now apply lookup_lt_Some in Hi.
    + symmetry. apply lookup_seq_ge. now apply lookup_ge_None in Hi.
Qed.

Lemma preview_rows_witness :
  (forallb asciiServerRow [serverApple; serverApple] = true /\
   existsb (normalizeThrows (aliases (setAliases learnedAliases exampleState)))
     [serverApple; serverApple] = false) /\
  length (rows (onChooseFile [serverApple; serverApple]
                  (setAliases learnedAliases exampleState))) = 2%nat /\
  row_index <$> rows (onChooseFile [serverApple; serverApple]
                        (setAliases learnedAliases exampleState)) = [0; 1]%nat.
Proof.
  split; [split; reflexivity |].
  destruct (preview_rows [serverApple; serverApple]
              (setAliases learnedAliases exampleState) eq_refl eq_refl)
    as (H1 & _ & _ & _ & H5).
  split; [exact H1 |]. apply H5. repeat constructor.
Defined.

Lemma applyLearned_identity (learned : option string) (cands : list Candidate) :
  candidateIdentity <$> (applyLearned learned cands).1 ≡ₚ candidateIdentity <$> cands.
Proof.
  destruct (applyLearned_cases learned cands)
    as [E | (l & pre & hit & post & _ & _ & -> & _ & _ & E)]; rewrite E; cbn [fst].
  - reflexivity.
  - rewrite !fmap_app, !fmap_cons, fmap_app.
    change (candidateIdentity (bumped hit)) with (candidateIdentity hit).
    apply Permutation_middle.
Qed.

(** X6. On a response of ASCII names and symbols on which it does not
    throw, the alias step never drops, adds or renames a candidate: every
    row of the session has the candidates that were served for it, each
    with its symbol, name, type and source, possibly in another order. *)
Theorem preview_keeps_candidates (data : list ServerRow) (st : AppState)
  (i : nat) (sr : ServerRow) :
  forallb asciiServerRow data = true ->
  existsb (normalizeThrows (aliases st)) data = false ->
  data !! i = Some sr ->
  exists r cands,
    rows (onChooseFile data st) !! i = Some r /\
    row_candidates r = Some cands /\
    candidateIdentity <$> cands
      ≡ₚ candidateIdentity <$> default [] (srv_candidates sr) /\
    length cands = length (default [] (srv_candidates sr)).
Proof.
  intros _ Hok Hi. rewrite (onChooseFile_rows data st Hok).
  destruct (normalizeRow_fields (aliases st) i sr) as (_ & _ & H3 & _).
  eexists _, _. rewrite list_lookup_fmap, list_lookup_imap, Hi. cbn.
  split; [reflexivity |]. split; [exact H3 |].
  pose proof (applyLearned_identity
                (aliases st !! norm (nullish (srv_Name sr) (srv_input sr ≫= in_Name)))
                (default [] (srv_candidates sr))) as Hp.
  split; [exact Hp |].
  apply Permutation_length in Hp. now rewrite !length_fmap in Hp.
Qed.

Lemma preview_keeps_candidates_witness :
  (forallb asciiServerRow [serverApple] = true /\
   existsb (normalizeThrows (aliases (setAliases learnedAliases exampleState)))
     [serverApple] = false /\
   [serverApple] !! 0%nat = Some serverApple) /\
  exists r cands,
    rows (onChooseFile [serverApple] (setAliases learnedAliases exampleState))
      !! 0%nat = Some r /\
    row_candidates r = Some cands /\
    candidateIdentity <$> cands
      ≡ₚ candidateIdentity <$> default [] (srv_candidates serverApple) /\
    length cands = length (default [] (srv_candidates serverApple)).
Proof.
  split; [repeat split |].
  apply (preview_keeps_candidates [serverApple]
           (setAliases learnedAliases exampleState) 0 serverApple);
    reflexivity.
Defined.

Lemma applyLearned_flag (als : gmap string string) (sr : ServerRow) :
  (applyLearned
     (als !! norm (nullish (srv_Name sr) (srv_input sr ≫= in_Name)))
     (default [] (srv_candidates sr))).2 = aliasHits als sr.
Proof.
  unfold aliasHits.
  destruct (als !! _) as [l |]; [| reflexivity].
  destruct (truthy l) eqn:Ht; [| unfold applyLearned; now rewrite Ht].
  cbn [andb].
  destruct (first_match (matchesLearned l) (default [] (srv_candidates sr)))
    as [(pre & hit & post & -> & Hpre & Hhit) | Hmiss].
  - rewrite applyLearned_hit by assumption. cbn [snd]. symmetry.
    apply existsb_exists. exists hit. split; [| exact Hhit].
    apply in_or_app. right. now left.
  - rewrite applyLearned_miss by assumption. cbn [snd]. symmetry.
    apply not_true_is_false. intros (c & Hc & Hm)%existsb_exists.
    rewrite Forall_forall in Hmiss.
    rewrite (Hmiss c) in Hm; [discriminate | now apply list_elem_of_In].
Qed.

Lemma countApplied_imap (als : gmap string string) (data : list ServerRow) :
  forall k,
    countApplied (imap (fun i => normalizeRow als (k + i)) data)
    = length (List.filter (aliasHits als) data).
Proof.
  unfold countApplied.
  induction data as [| sr data IH]; intros k; [reflexivity |].
  rewrite imap_cons. cbn [List.filter].
  destruct (normalizeRow_fields als (k + 0) sr) as (_ & _ & _ & H4 & _).
  rewrite H4, applyLearned_flag.
  rewrite (imap_ext _ (fun i => normalizeRow als (S k + i))).
  2: { intros i x _. cbn. f_equal. lia. }
  destruct (aliasHits als sr); cbn [length]; now rewrite IH.
Qed.

(** X7. On a response of ASCII names and symbols on which the alias step
    does not throw, and with learned aliases that are ASCII, the number
    reported as "learned aliases applied" is the number of served rows for whose name
    an alias has been learned that is the symbol, up to the case of ASCII
    letters, of one of the row's candidates; it never exceeds the number
    of rows, and without learned aliases it is zero and every row has its
    candidates in the order they were served. *)
Theorem applied_alias_count (data : list ServerRow) (st : AppState) :
  forallb asciiServerRow data = true ->
  map_Forall (fun _ learned => isASCII learned = true) (aliases st) ->
  existsb (normalizeThrows (aliases st)) data = false ->
  appliedAliasCount (onChooseFile data st)
    = length (List.filter (aliasHits (aliases st)) data) /\
  (appliedAliasCount (onChooseFile data st) <= length data)%nat /\
  (aliases st = ∅ ->
   appliedAliasCount (onChooseFile data st) = 0%nat /\
   row_candidates <$> rows (onChooseFile data st)
     = (fun sr => Some (default [] (srv_candidates sr))) <$> data).
Proof.
  intros _ _ Hok. destruct (onChooseFile_returns data st Hok) as (Hr & Hc & _).
  assert (H : appliedAliasCount (onChooseFile data st)
              = length (List.filter (aliasHits (aliases st)) data))
    by (rewrite Hc; apply (countApplied_imap (aliases st) data 0)).
  split; [exact H |]. split.
  - rewrite H. apply filter_length_le.
  - intros E. split.
    + rewrite H, E. clear. induction data as [| sr data IH]; [reflexivity |].
      cbn [List.filter]. unfold aliasHits at 1. now rewrite lookup_empty.
    + rewrite Hr, E. apply list_eq. intros i.
      rewrite !list_lookup_fmap, list_lookup_imap.
      destruct (data !! i) as [sr |]; cbn; [| reflexivity].
      destruct (normalizeRow_fields ∅ i sr) as (_ & _ & H3 & _).
      rewrite H3, lookup_empty. reflexivity.
Qed.

Lemma applied_alias_count_witness :
  (forallb asciiServerRow [serverApple; serverConstructor; serverApple] = true /\
   map_Forall (fun _ learned => isASCII learned = true)
     (aliases (setAliases (<[ "constructor" := "cnst" ]> learnedAliases)
                 exampleState)) /\
   existsb
     (normalizeThrows
        (aliases (setAliases (<[ "constructor" := "cnst" ]> learnedAliases)
                    exampleState)))
     [serverApple; serverConstructor; serverApple] = false) /\
  appliedAliasCount
    (onChooseFile [serverApple; serverConstructor; serverApple]
       (setAliases (<[ "constructor" := "cnst" ]> learnedAliases) exampleState))
  = 3%nat.
Proof.
  assert (Hal : map_Forall (fun _ learned => isASCII learned = true)
            (aliases (setAliases (<[ "constructor" := "cnst" ]> learnedAliases)
                        exampleState)))
    by (apply map_Forall_insert_2; [reflexivity |];
        apply map_Forall_singleton; reflexivity).
  assert (Hok : existsb
            (normalizeThrows
               (aliases (setAliases (<[ "constructor" := "cnst" ]> learnedAliases)
                           exampleState)))
            [serverApple; serverConstructor; serverApple] = false)
    by reflexivity.
  split; [split; [reflexivity | split; [exact Hal | exact Hok]] |].
  destruct (applied_alias_count [serverApple; serverConstructor; serverApple]
              (setAliases (<[ "constructor" := "cnst" ]> learnedAliases)
                 exampleState) eq_refl Hal Hok) as (H & _).
  rewrite H. reflexivity.
Defined.

(** ** A name that the dictionary inherits *)

(** X22. A served row with a candidate whose name normalizes to
    [constructor] or [__proto__], when no alias has been learned for that
    name, makes the preview fail: reading the alias answers the member
    that every object inherits, the alias step throws, and the handler
    leaves the session without rows and without overrides, the learned
    aliases and the count of applied aliases as they were, an error line
    at the end of the log and one error toast shown. *)
Theorem preview_fails_on_inherited_name (data : list ServerRow) (st : AppState) :
  Exists (fun sr =>
            let nm := norm (nullish (srv_Name sr) (srv_input sr ≫= in_Name)) in
            (nm = "constructor" \/ nm = "__proto__")%string /\
            aliases st !! nm = None /\
            default [] (srv_candidates sr) <> []) data ->
  rows (onChooseFile data st) = [] /\
  overrides (onChooseFile data st) = ∅ /\
  aliases (onChooseFile data st) = aliases st /\
  appliedAliasCount (onChooseFile data st) = appliedAliasCount st /\
  last (logs (onChooseFile data st))
    = Some {| log_id := entropy st; log_ts := clock st;
              log_kind := error; log_text := PreviewFailed |} /\
  toasts (onChooseFile data st) = toasts st ++ [PreviewFailedToast].
Proof.
  intros Hex. rewrite onChooseFile_throws;
    [repeat split; cbn; apply last_snoc |].
  apply existsb_exists. apply Exists_exists in Hex as (sr & Hin & Hsr).
  exists sr. split; [now apply list_elem_of_In |].
  now apply normalizeThrows_spec.
Qed.

Lemma preview_fails_on_inherited_name_witness :
  Exists (fun sr =>
            let nm := norm (nullish (srv_Name sr) (srv_input sr ≫= in_Name)) in
            (nm = "constructor" \/ nm = "__proto__")%string /\
            aliases exampleState !! nm = None /\
            default [] (srv_candidates sr) <> [])
    [serverApple; serverConstructor] /\
  rows (onChooseFile [serverApple; serverConstructor] exampleState) = [] /\
  toasts (onChooseFile [serverApple; serverConstructor] exampleState)
    = [PreviewFailedToast].
Proof.
  assert (H : Exists (fun sr =>
            let nm := norm (nullish (srv_Name sr) (srv_input sr ≫= in_Name)) in
            (nm = "constructor" \/ nm = "__proto__")%string /\
            aliases exampleState !! nm = None /\
            default [] (srv_candidates sr) <> [])
    [serverApple; serverConstructor]).
  { apply Exists_cons_tl, Exists_cons_hd. cbv zeta.
    split; [left; reflexivity |]. split; [reflexivity | discriminate]. }
  split; [exact H |].
  destruct (preview_fails_on_inherited_name
              [serverApple; serverConstructor] exampleState H)
    as (H1 & _ & _ & _ & _ & H6).
  split; [exact H1 | exact H6].
Defined.

(** Once an alias has been learned for that name, the same response goes
    through. *)
Example preview_of_learned_constructor :
  length (rows (onChooseFile [serverApple; serverConstructor]
                  (setAliases {[ "constructor" := "CNST" ]} exampleState)))
  = 2%nat.
Proof. reflexivity. Qed.

(** * Setting and clearing overrides *)

Local Open Scope list_scope.

Lemma setOverrideForRow_set (i : nat) (v : string) (st : AppState) :
  truthy v = true ->
  overrides (setOverrideForRow i v st) = <[i := v]> (overrides st) /\
  rows (setOverrideForRow i v st) = rows st /\
  aliases (setOverrideForRow i v st)
    = (let nm := norm (List.find (fun rr => (row_index rr =? i)%nat) (rows st)
                         ≫= rowName) in
       if truthy nm then <[nm := v]> (aliases st) else aliases st).
Proof.
  intros Hv. unfold setOverrideForRow. rewrite Hv. cbn [negb]. cbv zeta.
  destruct (truthy (norm _)); repeat split; reflexivity.
Qed.

Lemma setOverrideForRow_clear (i : nat) (st : AppState) :
  overrides (setOverrideForRow i "" st) = delete i (overrides st) /\
  rows (setOverrideForRow i "" st) = rows st /\
  aliases (setOverrideForRow i "" st) = aliases st.
Proof. repeat split; reflexivity. Qed.

(** X8. Overrides compose as writes to a table: setting an override and
    then clearing it leaves the override map as it was when the row had no
    override (and without the row's entry in any case); of two overrides
    set for one row the second stands, in the override map and in the
    learned aliases; overrides of different rows do not disturb each
    other. *)
Theorem override_algebra (i : nat) (v w : string) (st : AppState) :
  truthy v = true -> truthy w = true ->
  overrides (setOverrideForRow i "" (setOverrideForRow i v st))
    = delete i (overrides st) /\
  (overrides st !! i = None ->
   overrides (setOverrideForRow i "" (setOverrideForRow i v st)) = overrides st) /\
  overrides (setOverrideForRow i w (setOverrideForRow i v st))
    = overrides (setOverrideForRow i w st) /\
  aliases (setOverrideForRow i w (setOverrideForRow i v st))
    = aliases (setOverrideForRow i w st) /\
  (forall j,
      j <> i ->
      overrides (setOverrideForRow j w (setOverrideForRow i v st))
        = overrides (setOverrideForRow i v (setOverrideForRow j w st)) /\
      overrides (setOverrideForRow j w (setOverrideForRow i v st)) !! i = Some v /\
      overrides (setOverrideForRow j w (setOverrideForRow i v st)) !! j = Some w).
Proof.
  intros Hv Hw.
  destruct (setOverrideForRow_set i v st Hv) as (Ov & Rv & Av).
  destruct (setOverrideForRow_set i w st Hw) as (Ow & Rw & Aw).
  destruct (setOverrideForRow_set i w (setOverrideForRow i v st) Hw)
    as (Owv & Rwv & Awv).
  destruct (setOverrideForRow_clear i (setOverrideForRow i v st)) as (Oc & _ & _).
  split; [| split; [| split; [| split]]].
  - rewrite Oc, Ov. apply delete_insert_eq.
  - intros Hnone. rewrite Oc, Ov, delete_insert_eq. now apply delete_id.
  - rewrite Owv, Ov, Ow. apply insert_insert_eq.
  - rewrite Awv, Rv, Av, Aw. cbv zeta.
    destruct (truthy (norm _)); [apply insert_insert_eq | reflexivity].
  - intros j Hj.
    destruct (setOverrideForRow_set j w st Hw) as (Oj & Rj & _).
    destruct (setOverrideForRow_set j w (setOverrideForRow i v st) Hw) as (Oji & _).
    destruct (setOverrideForRow_set i v (setOverrideForRow j w st) Hv) as (Oij & _).
    rewrite Oji, Oij, Ov, Oj. split; [now apply insert_insert_ne |].
    split; [rewrite lookup_insert_ne by assumption | ]; apply lookup_insert_eq.
Qed.

Lemma override_algebra_witness :
  (truthy "AAPL" = true /\ truthy "APLE" = true) /\
  overrides (setOverrideForRow 0 "" (setOverrideForRow 0 "AAPL" exampleState))
    = overrides exampleState /\
  overrides (setOverrideForRow 0 "APLE" (setOverrideForRow 0 "AAPL" exampleState))
    = {[ 0%nat := "APLE" ]} /\
  aliases (setOverrideForRow 0 "APLE" (setOverrideForRow 0 "AAPL" exampleState))
    = {[ "apple inc." := "APLE" ]}.
Proof.
  split; [split; reflexivity |].
  destruct (override_algebra 0 "AAPL" "APLE" exampleState eq_refl eq_refl)
    as (_ & H2 & _).
  split; [apply H2; reflexivity |]. split; reflexivity.
Defined.

(** * The change of an overridden row *)

Lemma find_first {A} (p : A -> bool) (pre : list A) (x : A) (post : list A) :
  Forall (fun c => p c = false) pre -> p x = true ->
  List.find p (pre ++ x :: post) = Some x.
Proof.
  intros Hpre Hx. induction Hpre as [| c pre Hc _ IH]; cbn.
  - now rewrite Hx.
  - now rewrite Hc.
Qed.

Lemma find_none_all {A} (p : A -> bool) (l : list A) :
  Forall (fun c => p c = false) l -> List.find p l = None.
Proof. induction 1 as [| c l Hc _ IH]; cbn; [reflexivity | now rewrite Hc]. Qed.

Lemma changeOf_override_full (ov : gmap nat string) (r : PreviewRow) (to : string) :
  ov !! row_index r = Some to -> truthy to = true ->
  changeOf ov r =
    let byTo := row_candidates r
                  ≫= List.find (fun c => bool_decide (Some (cand_symbol c) = Some to)) in
    Some {| pc_index := row_index r;
            pc_name := default "" (rowName r);
            pc_fromSymbol := default "" (rowSymbol r);
            pc_toSymbol := to;
            pc_score := byTo ≫= cand_score;
            pc_source := byTo ≫= cand_source;
            pc_risk := riskOf (byTo ≫= cand_score) (byTo ≫= cand_source) |}.
Proof.
  intros Hov Ht. unfold changeOf. rewrite Hov. cbn [truthyOpt]. rewrite Ht.
  cbn [negb andb truthyOpt]. rewrite Ht. reflexivity.
Qed.

(** X9. The score and the risk of an overridden row are those of the first
    candidate whose symbol is the override letter for letter: the change
    of a row overridden with such a symbol has that candidate's score and
    source and the risk of that score, and the change of a row overridden
    with a symbol none of its candidates has (were it one of them in
    another case) has no score and is rated HIGH. *)
Theorem override_risk (ov : gmap nat string) (r : PreviewRow) (to : string)
  (cands : list Candidate) :
  ov !! row_index r = Some to -> truthy to = true ->
  row_candidates r = Some cands ->
  (forall pre c post,
      cands = pre ++ c :: post ->
      Forall (fun c' => cand_symbol c' <> to) pre -> cand_symbol c = to ->
      exists ch,
        changeOf ov r = Some ch /\ pc_toSymbol ch = to /\
        pc_score ch = cand_score c /\ pc_source ch = cand_source c /\
        pc_risk ch = riskOf (cand_score c) (cand_source c)) /\
  (Forall (fun c' => cand_symbol c' <> to) cands ->
   exists ch,
     changeOf ov r = Some ch /\ pc_toSymbol ch = to /\
     pc_score ch = None /\ pc_source ch = None /\ pc_risk ch = HIGH).
Proof.
  intros Hov Ht Hc. rewrite (changeOf_override_full _ _ _ Hov Ht), Hc.
  cbn [mbind option_bind]. cbv zeta. split.
  - intros pre c post -> Hpre Hsym.
    rewrite (find_first _ pre c post).
    + eexists. split; [reflexivity |]. cbn. repeat split; reflexivity.
    + eapply Forall_impl; [exact Hpre |]. intros c' Hc'. cbn.
      apply bool_decide_eq_false_2. congruence.
    + apply bool_decide_eq_true_2. now rewrite Hsym.
  - intros Hnone. rewrite find_none_all.
    + eexists. split; [reflexivity |]. cbn. repeat split; reflexivity.
    + eapply Forall_impl; [exact Hnone |]. intros c' Hc'. cbn.
      apply bool_decide_eq_false_2. congruence.
Qed.

Lemma override_risk_witness :
  (({[ 0%nat := "aapl" ]} : gmap nat string) !! row_index appleRow = Some "aapl" /\
   truthy "aapl" = true /\
   row_candidates appleRow
     = Some [ mkCandidate "AAPL" "Apple Inc" (Some 0.9%float) "FINNHUB";
              mkCandidate "APLE" "Apple Hospitality REIT" (Some 0.4%float) "POLYGON" ]) /\
  exists ch,
    changeOf {[ 0%nat := "aapl" ]} appleRow = Some ch /\ pc_toSymbol ch = "aapl" /\
    pc_score ch = None /\ pc_source ch = None /\ pc_risk ch = HIGH.
Proof.
  assert (H1 : ({[ 0%nat := "aapl" ]} : gmap nat string) !! row_index appleRow
               = Some "aapl") by reflexivity.
  split; [repeat split; exact H1 |].
  destruct (override_risk {[ 0%nat := "aapl" ]} appleRow "aapl" _
              H1 eq_refl eq_refl) as [_ H].
  apply H. repeat constructor; discriminate.
Defined.

(** * What the change-set holds *)

Lemma elem_of_pendingChanges (st : AppState) (c : PendingChange) :
  rows st <> [] ->
  c ∈ pendingChanges (openCommitPreview st) <->
  exists r, r ∈ rows st /\ changeOf (overrides st) r = Some c.
Proof.
  intros Hne. unfold openCommitPreview.
  destruct (rows st) eqn:E; [contradiction |]. rewrite <- E.
  cbn [pendingChanges setCommitPreviewOpen setPendingChanges].
  rewrite Array_sort_perm. unfold buildChanges. apply list_elem_of_omap.
Qed.

(** X10. Once an override is set for a row of the session, the commit
    preview holds a change for that row that proposes the override. *)
Theorem override_shows_in_preview (i : nat) (v : string) (st : AppState)
  (r : PreviewRow) :
  truthy v = true -> r ∈ rows st -> row_index r = i ->
  exists c,
    c ∈ pendingChanges (openCommitPreview (setOverrideForRow i v st)) /\
    pc_index c = i /\ pc_toSymbol c = v /\
    pc_name c = default "" (rowName r) /\
    pc_fromSymbol c = default "" (rowSymbol r).
Proof.
  intros Hv Hr Hi.
  destruct (setOverrideForRow_set i v st Hv) as (Ov & Rv & _).
  assert (Hov : overrides (setOverrideForRow i v st) !! row_index r = Some v)
    by (rewrite Ov, Hi; apply lookup_insert_eq).
  pose proof (changeOf_override_full _ _ _ Hov Hv) as Hc. cbv zeta in Hc.
  eexists. split.
  - apply elem_of_pendingChanges.
    + rewrite Rv. intros E. rewrite E in Hr. inversion Hr.
    + exists r. rewrite Rv. split; [exact Hr | exact Hc].
  - cbn. repeat split; assumption || reflexivity.
Qed.

Lemma override_shows_in_preview_witness :
  (truthy "APLE" = true /\ appleRow ∈ rows exampleState /\
   row_index appleRow = 0%nat) /\
  exists c,
    c ∈ pendingChanges (openCommitPreview (setOverrideForRow 0 "APLE" exampleState)) /\
    pc_index c = 0%nat /\ pc_toSymbol c = "APLE" /\
    pc_name c = default "" (rowName appleRow) /\
    pc_fromSymbol c = default "" (rowSymbol appleRow).
Proof.
  assert (H : appleRow ∈ rows exampleState) by apply list_elem_of_here.
  split; [repeat split; exact H |].
  apply (override_shows_in_preview 0 "APLE" exampleState appleRow eq_refl H eq_refl).
Defined.

Lemma omap_length_le {A B} (f : A -> option B) (l : list A) :
  (length (omap f l) <= length l)%nat.
Proof.
  induction l as [| x l IH]; cbn; [lia |]. destruct (f x); cbn; lia.
Qed.

Lemma changeOf_origin (ov : gmap nat string) (r : PreviewRow) (c : PendingChange) :
  changeOf ov r = Some c ->
  pc_index c = row_index r /\ truthy (pc_toSymbol c) = true /\
  (ov !! row_index r = Some (pc_toSymbol c) \/
   (truthyOpt (ov !! row_index r) = false /\ row_status r = FILLED /\
    exists top, topCandidate r = Some top /\ cand_symbol top = pc_toSymbol c)).
Proof.
  unfold changeOf.
  destruct (ov !! row_index r) as [to |] eqn:Hov; cbn [truthyOpt].
  - destruct (truthy to) eqn:Ht; cbn [negb andb].
    + cbn [truthyOpt]. rewrite Ht. cbn [negb]. intros [= <-]. cbn. auto.
    + destruct (String.eqb_spec (row_status r) FILLED) as [E | _];
        cbn [negb]; [| discriminate].
      destruct (topCandidate r) as [top |]; cbn; [| discriminate].
      destruct (truthy (cand_symbol top)) eqn:Hs; cbn; [| discriminate].
      intros [= <-]. cbn. split; [reflexivity |]. split; [exact Hs |].
      right. repeat split; eauto.
  - cbn [negb andb].
    destruct (String.eqb_spec (row_status r) FILLED) as [E | _];
      cbn [negb]; [| discriminate].
    destruct (topCandidate r) as [top |]; cbn; [| discriminate].
    destruct (truthy (cand_symbol top)) eqn:Hs; cbn; [| discriminate].
    intros [= <-]. cbn. split; [reflexivity |]. split; [exact Hs |].
    right. repeat split; eauto.
Qed.

(** X11. No symbol of the change-set is made up: every change is the
    change of a row of the session, and the symbol it proposes is not
    empty and is either the override set for that row or, for a FILLED row
    without override, the symbol of the row's top candidate.  There are no
    more changes than rows. *)
Theorem changes_have_origin (st : AppState) :
  (forall c,
      c ∈ pendingChanges (openCommitPreview st) -> rows st <> [] ->
      exists r,
        r ∈ rows st /\ pc_index c = row_index r /\
        truthy (pc_toSymbol c) = true /\
        (overrides st !! row_index r = Some (pc_toSymbol c) \/
         (truthyOpt (overrides st !! row_index r) = false /\
          row_status r = FILLED /\
          exists top, topCandidate r = Some top /\
                      cand_symbol top = pc_toSymbol c))) /\
  (rows st <> [] ->
   (length (pendingChanges (openCommitPreview st)) <= length (rows st))%nat) /\
  (rows st = [] ->
   pendingChanges (openCommitPreview st) = pendingChanges st /\
   commitPreviewOpen (openCommitPreview st) = commitPreviewOpen st /\
   toasts (openCommitPreview st) = toasts st ++ [SelectFileFirst]).
Proof.
  split; [| split].
  - intros c Hc Hne. apply (elem_of_pendingChanges st c Hne) in Hc as (r & Hr & Hch).
    exists r. split; [exact Hr |]. now apply changeOf_origin.
  - intros Hne. unfold openCommitPreview.
    destruct (rows st) eqn:E; [contradiction |]. rewrite <- E.
    cbn [pendingChanges setCommitPreviewOpen setPendingChanges].
    rewrite Array_sort_perm. unfold buildChanges. apply omap_length_le.
  - intros E. unfold openCommitPreview. rewrite E. repeat split; reflexivity.
Qed.

(** * Bulk apply, composed *)

Local Open Scope list_scope.

Lemma filtered_elem (st : AppState) (r : PreviewRow) :
  r ∈ filtered st ->
  r ∈ rows st /\ (statusFilter st <> "ALL" -> row_status r = statusFilter st).
Proof.
  intros Hr. apply list_elem_of_In, filter_In in Hr as [Hin Hr].
  split; [now apply list_elem_of_In |]. intros Hs.
  destruct (String.eqb_spec (statusFilter st) "ALL") as [E | _]; [contradiction |].
  cbn [negb andb] in Hr.
  destruct (String.eqb_spec (row_status r) (statusFilter st)) as [E | _];
    [exact E | discriminate].
Qed.

Lemma bulkApply_frame (st : AppState) :
  rows (bulkApplyTopCandidates st) = rows st /\
  statusFilter (bulkApplyTopCandidates st) = statusFilter st /\
  qDebounced (bulkApplyTopCandidates st) = qDebounced st /\
  bulkMinScore (bulkApplyTopCandidates st) = bulkMinScore st /\
  pendingChanges (bulkApplyTopCandidates st) = pendingChanges st.
Proof.
  unfold bulkApplyTopCandidates.
  destruct (foldl _ _ _) as [[next als] changed]. repeat split; reflexivity.
Qed.

Lemma bulkApply_filtered (st : AppState) :
  filtered (bulkApplyTopCandidates st) = filtered st.
Proof.
  destruct (bulkApply_frame st) as (Hr & Hs & Hq & _).
  unfold filtered. now rewrite Hr, Hs, Hq.
Qed.

(** X12. Bulk apply is idempotent: applying it a second time, with the
    filter and the threshold untouched, changes neither the overrides nor
    the learned aliases. *)
Theorem bulk_apply_idempotent (st : AppState) :
  overrides (bulkApplyTopCandidates (bulkApplyTopCandidates st))
    = overrides (bulkApplyTopCandidates st) /\
  aliases (bulkApplyTopCandidates (bulkApplyTopCandidates st))
    = aliases (bulkApplyTopCandidates st).
Proof.
  destruct (bulkApply_frame st) as (_ & _ & _ & Hm & _).
  split; apply map_eq; intros k.
  - rewrite (bulkApply_overrides (bulkApplyTopCandidates st)), bulk_overrides.
    rewrite bulkApply_filtered, Hm.
    rewrite (bulkApply_overrides st), bulk_overrides.
    now destruct (last _).
  - rewrite (bulkApply_aliases (bulkApplyTopCandidates st)), bulk_aliases.
    rewrite bulkApply_filtered, Hm.
    rewrite (bulkApply_aliases st), bulk_aliases.
    now destruct (last _).
Qed.

Lemma ltb_leb_trans (x y z : float) :
  PrimFloat.ltb x y = true -> PrimFloat.leb y z = true ->
  PrimFloat.ltb x z = true.
Proof.
  intros (Nx & Ny & H1)%ltb_lt (_ & Nz & H2)%leb_le.
  rewrite ltb_value by assumption. apply Z.ltb_lt. lia.
Qed.

Lemma leb_ltb_false (x y : float) :
  PrimFloat.leb x y = true -> PrimFloat.ltb y x = false.
Proof.
  intros (Nx & Ny & H)%leb_le. rewrite ltb_value by assumption.
  apply Z.ltb_ge. exact H.
Qed.

(** X13. Raising the minimum score never applies more rows: a row that
    bulk apply takes at a threshold is taken at every lower threshold; and
    at the threshold 0, the setting the slider starts at, every FILLED or
    AMBIGUOUS row with a top candidate is taken unless that candidate's
    score is a number below zero. *)
Theorem bulk_threshold_monotone (m1 m2 : float) :
  PrimFloat.leb m1 m2 = true ->
  (forall r top, bulkTop m2 r = Some top -> bulkTop m1 r = Some top) /\
  (forall r top,
      (row_status r = FILLED \/ row_status r = AMBIGUOUS) ->
      topCandidate r = Some top ->
      (forall s, cand_score top = Some s -> PrimFloat.ltb s 0 = false) ->
      bulkTop 0 r = Some top).
Proof.
  intros Hm. split.
  - intros r top (Hs & Ht & Hsc)%bulkTop_Some. apply bulkTop_Some.
    split; [exact Hs |]. split; [exact Ht |].
    intros s Es. specialize (Hsc s Es).
    destruct (PrimFloat.ltb s m1) eqn:E; [| reflexivity].
    rewrite (ltb_leb_trans _ _ _ E Hm) in Hsc. discriminate.
  - intros r top Hs Ht Hsc. apply bulkTop_Some. auto.
Qed.

Lemma bulk_threshold_monotone_witness :
  PrimFloat.leb 0.6 0.8 = true /\
  bulkTop 0.8 appleRow = bulkTop 0.6 appleRow /\
  bulkTop 0.6 appleRow
    = Some (mkCandidate "AAPL" "Apple Inc" (Some 0.9%float) "FINNHUB").
Proof.
  split; [reflexivity |]. split; [| reflexivity].
  destruct (bulk_threshold_monotone 0.6 0.8 eq_refl) as [H _].
  rewrite (H appleRow _ eq_refl). reflexivity.
Defined.

Lemma bulk_none_unchanged (st : AppState) :
  (forall r, r ∈ filtered st -> bulkTop (bulkMinScore st) r = None) ->
  overrides (bulkApplyTopCandidates st) = overrides st /\
  aliases (bulkApplyTopCandidates st) = aliases st.
Proof.
  intros H. split; apply map_eq; intros k.
  - rewrite bulkApply_overrides, bulk_overrides, bulkWritesIndex_none; [reflexivity |].
    intros r Hr _. now apply H.
  - rewrite bulkApply_aliases, bulk_aliases, bulkWritesAlias_none; [reflexivity |].
    intros r Hr _ _. now apply H.
Qed.

(** X14. Bulk apply takes no row that is not FILLED or AMBIGUOUS: under a
    status chip other than ALL, FILLED and AMBIGUOUS it changes no override
    and no alias, and under any chip the override of a row whose index is
    that of rows of other statuses only is left as it is. *)
Theorem bulk_apply_statuses (st : AppState) :
  (statusFilter st <> "ALL" -> statusFilter st <> FILLED ->
   statusFilter st <> AMBIGUOUS ->
   overrides (bulkApplyTopCandidates st) = overrides st /\
   aliases (bulkApplyTopCandidates st) = aliases st) /\
  (forall i,
      (forall r, r ∈ filtered st -> row_index r = i ->
                 row_status r <> FILLED /\ row_status r <> AMBIGUOUS) ->
      overrides (bulkApplyTopCandidates st) !! i = overrides st !! i).
Proof.
  split.
  - intros H1 H2 H3. apply bulk_none_unchanged. intros r Hr.
    destruct (filtered_elem st r Hr) as [_ Hs]. specialize (Hs H1).
    destruct (bulkTop (bulkMinScore st) r) as [top |] eqn:E; [| reflexivity].
    apply bulkTop_Some in E as ([E | E] & _); congruence.
  - intros i H.
    rewrite bulkApply_overrides, bulk_overrides, bulkWritesIndex_none; [reflexivity |].
    intros r Hr Hi. destruct (H r Hr Hi) as [H1 H2].
    destruct (bulkTop (bulkMinScore st) r) as [top |] eqn:E; [| reflexivity].
    apply bulkTop_Some in E as ([E | E] & _); contradiction.
Qed.



(** The example session: one row is taken and gets its override, and the
    toast says 0. *)
Example bulk_apply_reports_zero :
  overrides (bulkApplyTopCandidates exampleState) = {[ 0%nat := "AAPL" ]} /\
  toasts (bulkApplyTopCandidates exampleState) = [BulkAppliedToast 0] /\
  log_text <$> logs (bulkApplyTopCandidates exampleState)
    = [BulkApplied 0 0.8%float].
Proof. repeat split; reflexivity. Qed.

(** X16. Bulk apply and the commit preview go together: among rows of
    distinct indices, a row that bulk apply took, with a top candidate of a
    non-empty symbol, has in the commit preview opened next a change that
    proposes that symbol with that candidate's score and source and the
    risk of that score. *)
Theorem bulk_apply_then_preview (st : AppState) (r : PreviewRow) (top : Candidate) :
  NoDup (row_index <$> filtered st) -> r ∈ filtered st ->
  bulkTop (bulkMinScore st) r = Some top -> truthy (cand_symbol top) = true ->
  exists c,
    c ∈ pendingChanges (openCommitPreview (bulkApplyTopCandidates st)) /\
    pc_index c = row_index r /\ pc_toSymbol c = cand_symbol top /\
    pc_score c = cand_score top /\ pc_source c = cand_source top /\
    pc_risk c = riskOf (cand_score top) (cand_source top).
Proof.
  intros Hnd Hr Ht Hs.
  destruct (filtered_elem st r Hr) as [Hrows _].
  destruct (bulkApply_frame st) as (Rb & _).
  assert (Hov : overrides (bulkApplyTopCandidates st) !! row_index r
                = Some (cand_symbol top)).
  { rewrite bulkApply_overrides, bulk_overrides.
    rewrite bulkWritesIndex_NoDup by eauto. cbn. now rewrite Ht. }
  pose proof (changeOf_override_full _ _ _ Hov Hs) as Hc. cbv zeta in Hc.
  apply bulkTop_Some in Ht as (_ & Htop & _). unfold topCandidate in Htop.
  destruct (row_candidates r) as [[| c0 rest] |] eqn:Ec; try discriminate.
  cbn in Htop. injection Htop as ->.
  cbn [mbind option_bind] in Hc.
  rewrite (find_first _ [] top rest) in Hc;
    [| constructor | now apply bool_decide_eq_true_2].
  eexists. split.
  - apply elem_of_pendingChanges.
    + rewrite Rb. intros E. rewrite E in Hrows. inversion Hrows.
    + exists r. rewrite Rb. split; [exact Hrows | exact Hc].
  - cbn. repeat split; reflexivity.
Qed.

Lemma bulk_apply_then_preview_witness :
  (NoDup (row_index <$> filtered exampleState) /\
   appleRow ∈ filtered exampleState /\
   bulkTop (bulkMinScore exampleState) appleRow
     = Some (mkCandidate "AAPL" "Apple Inc" (Some 0.9%float) "FINNHUB") /\
   truthy "AAPL" = true) /\
  exists c,
    c ∈ pendingChanges (openCommitPreview (bulkApplyTopCandidates exampleState)) /\
    pc_index c = 0%nat /\ pc_toSymbol c = "AAPL" /\
    pc_score c = Some 0.9%float /\ pc_source c = Some "FINNHUB" /\
    pc_risk c = LOW.
Proof.
  assert (Hnd : NoDup (row_index <$> filtered exampleState))
    by (apply (NoDup_ListNoDup [0; 1; 2]%nat); repeat constructor;
        cbn; intuition discriminate).
  assert (Hin : appleRow ∈ filtered exampleState) by apply list_elem_of_here.
  split; [repeat split; assumption |].
  apply (bulk_apply_then_preview exampleState appleRow _ Hnd Hin eq_refl eq_refl).
Defined.

(** * The review order, further *)

Local Open Scope list_scope.

(** [a] may stand before [b] as far as the tiers go. *)
Lemma compareChanges_tiers (a b : PendingChange) :
  (gtb (compareChanges a b) 0 = false -> (rk (pc_risk b) <= rk (pc_risk a))%Z) /\
  (gtb (compareChanges a b) 0 = true -> (rk (pc_risk a) <= rk (pc_risk b))%Z).
Proof.
  unfold compareChanges.
  destruct (Z.eqb_spec (rk (pc_risk a) - rk (pc_risk b)) 0) as [E | E]; cbn [negb].
  - split; intros _; lia.
  - destruct (Z.ltb_spec 0 (rk (pc_risk a) - rk (pc_risk b))) as [H | H].
    + split; [intros _; lia | intros K; vm_compute in K; discriminate].
    + split; [intros K; vm_compute in K; discriminate | intros _; lia].
Qed.

Lemma pendingChanges_tier_sorted (st : AppState) :
  StronglySorted (fun a b => (rk (pc_risk b) <= rk (pc_risk a))%Z)
    (pendingChanges (openCommitPreview st)) \/
  (rows st = [] /\ pendingChanges (openCommitPreview st) = pendingChanges st).
Proof.
  unfold openCommitPreview. destruct (rows st) eqn:E; [right; now split |].
  left. rewrite <- E.
  cbn [pendingChanges setCommitPreviewOpen setPendingChanges].
  apply Array_sort_sorted with (P := fun _ => True).
  - intros a b _ _. apply compareChanges_tiers.
  - intros a b _ _. apply compareChanges_tiers.
  - intros a b c _ _ _. lia.
  - apply Forall_forall. auto.
Qed.

Lemma tally_cons (t : RiskLevel) (c : PendingChange) (l : list PendingChange) :
  List.filter (fun c => sameRisk (pc_risk c) t) (c :: l)
  = if sameRisk (pc_risk c) t
    then c :: List.filter (fun c => sameRisk (pc_risk c) t) l
    else List.filter (fun c => sameRisk (pc_risk c) t) l.
Proof. reflexivity. Qed.

Lemma filter_tier_nil (t : RiskLevel) (l : list PendingChange) :
  Forall (fun c => (rk (pc_risk c) < rk t)%Z) l ->
  List.filter (fun c => sameRisk (pc_risk c) t) l = [].
Proof.
  induction 1 as [| c l Hc _ IH]; [reflexivity |]. rewrite tally_cons, IH.
  destruct (pc_risk c), t; cbn in *; reflexivity || lia.
Qed.

(** An array sorted by tier is its HIGH entries, then its MEDIUM entries,
    then its LOW entries. *)
Lemma tier_sorted_blocks (l : list PendingChange) :
  StronglySorted (fun a b => (rk (pc_risk b) <= rk (pc_risk a))%Z) l ->
  l = List.filter (fun c => sameRisk (pc_risk c) HIGH) l
      ++ List.filter (fun c => sameRisk (pc_risk c) MEDIUM) l
      ++ List.filter (fun c => sameRisk (pc_risk c) LOW) l.
Proof.
  induction 1 as [| c l Hs IH Hc]; [reflexivity |].
  rewrite !tally_cons.
  destruct (pc_risk c) eqn:E; cbn [sameRisk].
  - cbn [app]. now rewrite <- IH.
  - rewrite filter_tier_nil in *
      by (eapply Forall_impl; [exact Hc |]; cbn; intros; lia).
    cbn [app] in *. now rewrite <- IH.
  - rewrite (filter_tier_nil HIGH), (filter_tier_nil MEDIUM) in *
      by (eapply Forall_impl; [exact Hc |]; cbn; intros; lia).
    cbn [app] in *. now rewrite <- IH.
Qed.

Lemma filter_tier_Forall (t : RiskLevel) (l : list PendingChange) :
  Forall (fun c => pc_risk c = t)
    (List.filter (fun c => sameRisk (pc_risk c) t) l).
Proof.
  apply Forall_forall. intros c Hc.
  apply list_elem_of_In, filter_In in Hc as [_ Hc].
  destruct (pc_risk c), t; cbn in Hc; congruence.
Qed.

(** X17. With rows whose scores are not NaN, the change-set is in the
    order of the tiers, and the three counts of the commit preview say
    where each tier lies: the first [hi] changes are the HIGH ones, the
    next [me] the MEDIUM ones and the last [lo] the LOW ones; the three
    counts add up to the number of changes. *)
Theorem changes_in_tier_blocks (st : AppState) :
  rows st <> [] -> Forall scoresComparable (rows st) ->
  let changes := pendingChanges (openCommitPreview st) in
  (CommitPreview.hi changes + CommitPreview.me changes
   + CommitPreview.lo changes)%nat = length changes /\
  forall i c,
    changes !! i = Some c ->
    ((i < CommitPreview.hi changes)%nat -> pc_risk c = HIGH) /\
    ((CommitPreview.hi changes <= i
      < CommitPreview.hi changes + CommitPreview.me changes)%nat ->
     pc_risk c = MEDIUM) /\
    ((CommitPreview.hi changes + CommitPreview.me changes <= i)%nat ->
     pc_risk c = LOW).
Proof.
  intros Hne _ changes.
  destruct (pendingChanges_tier_sorted st) as [Hs | [E _]]; [| contradiction].
  fold changes in Hs. pose proof (tier_sorted_blocks changes Hs) as Hb.
  unfold CommitPreview.hi, CommitPreview.me, CommitPreview.lo, CommitPreview.tally.
  set (H := List.filter (fun c => sameRisk (pc_risk c) HIGH) changes) in *.
  set (M := List.filter (fun c => sameRisk (pc_risk c) MEDIUM) changes) in *.
  set (L := List.filter (fun c => sameRisk (pc_risk c) LOW) changes) in *.
  pose proof (filter_tier_Forall HIGH changes) as FH.
  pose proof (filter_tier_Forall MEDIUM changes) as FM.
  pose proof (filter_tier_Forall LOW changes) as FL.
  fold H in FH. fold M in FM. fold L in FL.
  rewrite Forall_forall in FH, FM, FL.
  pose proof (f_equal length Hb) as Hl. rewrite !length_app in Hl.
  split; [lia |].
  intros i c Hi. rewrite Hb in Hi.
  split; [| split]; intros Hlt.
  - rewrite lookup_app_l in Hi by exact Hlt.
    apply FH. eapply list_elem_of_lookup_2. exact Hi.
  - rewrite lookup_app_r, lookup_app_l in Hi by lia.
    apply FM. eapply list_elem_of_lookup_2. exact Hi.
  - rewrite lookup_app_r, lookup_app_r in Hi by lia.
    apply FL. eapply list_elem_of_lookup_2. exact Hi.
Qed.

Lemma changes_in_tier_blocks_witness :
  (rows overriddenState <> [] /\ Forall scoresComparable (rows overriddenState)) /\
  (CommitPreview.hi (pendingChanges (openCommitPreview overriddenState)) = 1%nat /\
   CommitPreview.me (pendingChanges (openCommitPreview overriddenState)) = 1%nat /\
   CommitPreview.lo (pendingChanges (openCommitPreview overriddenState)) = 1%nat) /\
  forall c,
    pendingChanges (openCommitPreview overriddenState) !! 0%nat = Some c ->
    pc_risk c = HIGH.
Proof.
  assert (Hs : Forall scoresComparable (rows overriddenState))
    by (repeat constructor).
  split; [split; [discriminate | exact Hs] |]. split; [repeat split |].
  intros c Hc.
  destruct (changes_in_tier_blocks overriddenState ltac:(discriminate) Hs)
    as [_ H].
  destruct (H 0%nat c Hc) as [H0 _]. apply H0. vm_compute. lia.
Defined.

(** ** Ties *)

Section Stable.

Context {A : Type} (comparefn : A -> A -> float) (p : A -> bool).

Lemma insertSorted_filter (x : A) (l : list A) :
  (forall y, y ∈ l -> p x = true -> p y = true -> gtb (comparefn x y) 0 = false) ->
  List.filter p (insertSorted comparefn x l) = List.filter p (x :: l).
Proof.
  induction l as [| y l IH]; intros H; [reflexivity |].
  cbn [insertSorted].
  destruct (gtb (comparefn x y) 0) eqn:E; [| reflexivity].
  cbn [List.filter]. rewrite IH
    by (intros z Hz; apply H; now apply list_elem_of_further).
  cbn [List.filter].
  destruct (p x) eqn:Px, (p y) eqn:Py; try reflexivity.
  rewrite (H y (list_elem_of_here _ _) eq_refl Py) in E. discriminate.
Qed.

Lemma Array_sort_filter (l : list A) :
  (forall x y, x ∈ l -> y ∈ l -> p x = true -> p y = true ->
               gtb (comparefn x y) 0 = false) ->
  List.filter p (Array_sort comparefn l) = List.filter p l.
Proof.
  induction l as [| x l IH]; intros H; [reflexivity |].
  cbn [Array_sort foldr]. fold (Array_sort comparefn l).
  rewrite insertSorted_filter.
  - cbn [List.filter]. rewrite IH; [reflexivity |].
    intros a b Ha Hb. apply H; now apply list_elem_of_further.
  - intros y Hy. rewrite Array_sort_perm in Hy.
    apply H; [apply list_elem_of_here | now apply list_elem_of_further].
Qed.

End Stable.

Lemma is_nan_true_Prim2SF (x : float) :
  PrimFloat.is_nan x = true -> Prim2SF x = S754_nan.
Proof.
  intros H. destruct (Prim2SF x) eqn:E; try reflexivity.
  all: assert (N : Prim2SF x <> S754_nan) by (rewrite E; discriminate).
  all: apply is_nan_Prim2SF in N; congruence.
Qed.

(** A number minus itself is not above zero. *)
Lemma sub_self_not_pos (k : float) : gtb (k - k) 0 = false.
Proof.
  destruct (PrimFloat.is_nan k) eqn:N.
  - unfold gtb. rewrite FloatAxioms.ltb_spec, sub_spec.
    rewrite (is_nan_true_Prim2SF _ N). reflexivity.
  - rewrite sub_gtb, ltb_value by assumption. apply Z.ltb_irrefl.
Qed.

(** X18. With rows whose scores are not NaN, the sort is stable where the
    comparator ties: the changes of any group whose members all have one
    risk and one score (or all have none) stand in the change-set in the
    order of their rows. *)
Theorem changes_ties_in_row_order (st : AppState) (p : PendingChange -> bool) :
  rows st <> [] -> Forall scoresComparable (rows st) ->
  (forall a b,
      a ∈ buildChanges (overrides st) (rows st) ->
      b ∈ buildChanges (overrides st) (rows st) ->
      p a = true -> p b = true ->
      pc_risk a = pc_risk b /\ pc_score a = pc_score b) ->
  List.filter p (pendingChanges (openCommitPreview st))
  = List.filter p (buildChanges (overrides st) (rows st)).
Proof.
  intros Hne _ Htie. unfold openCommitPreview.
  destruct (rows st) eqn:E; [contradiction |]. rewrite <- E in *.
  cbn [pendingChanges setCommitPreviewOpen setPendingChanges].
  apply Array_sort_filter. intros a b Ha Hb Pa Pb.
  destruct (Htie a b Ha Hb Pa Pb) as [Hr Hs].
  unfold compareChanges. rewrite Hr, Z.sub_diag, Hs. cbn [Z.eqb negb].
  apply sub_self_not_pos.
Qed.

Lemma changes_ties_in_row_order_witness :
  (rows tiedState <> [] /\ Forall scoresComparable (rows tiedState) /\
   forall a b,
     a ∈ buildChanges (overrides tiedState) (rows tiedState) ->
     b ∈ buildChanges (overrides tiedState) (rows tiedState) ->
     sameRisk (pc_risk a) HIGH = true -> sameRisk (pc_risk b) HIGH = true ->
     pc_risk a = pc_risk b /\ pc_score a = pc_score b) /\
  List.filter (fun c => sameRisk (pc_risk c) HIGH)
    (pendingChanges (openCommitPreview tiedState))
  = List.filter (fun c => sameRisk (pc_risk c) HIGH)
      (buildChanges (overrides tiedState) (rows tiedState)) /\
  pc_index <$> pendingChanges (openCommitPreview tiedState) = [0; 1]%nat.
Proof.
  assert (H : forall a b,
             a ∈ buildChanges (overrides tiedState) (rows tiedState) ->
             b ∈ buildChanges (overrides tiedState) (rows tiedState) ->
             sameRisk (pc_risk a) HIGH = true -> sameRisk (pc_risk b) HIGH = true ->
             pc_risk a = pc_risk b /\ pc_score a = pc_score b).
  { intros a b Ha%list_elem_of_In Hb%list_elem_of_In _ _.
    vm_compute in Ha, Hb.
    destruct Ha as [<- | [<- | []]], Hb as [<- | [<- | []]]; split; reflexivity. }
  assert (Hs : Forall scoresComparable (rows tiedState))
    by (repeat constructor).
  split; [split; [discriminate | split; [exact Hs | exact H]] |].
  split; [| reflexivity].
  apply (changes_ties_in_row_order tiedState
           (fun c => sameRisk (pc_risk c) HIGH) ltac:(discriminate) Hs H).
Defined.

(** * From an override to the next preview *)

Local Open Scope list_scope.

(** X19. What the user chose is on top next time: after an override of
    an ASCII symbol is set for a row with a name, a later preview response
    of ASCII names and symbols on which the alias step does not throw
    puts, in every row whose name normalizes to the same key and that has
    a candidate of the chosen symbol (up to the case of its letters), such
    a candidate at position 0. *)
Theorem override_tops_next_preview (i : nat) (v : string) (st : AppState)
  (r : PreviewRow) (data : list ServerRow) (j : nat) (sr : ServerRow) :
  truthy v = true -> isASCII v = true ->
  List.find (fun rr => (row_index rr =? i)%nat) (rows st) = Some r ->
  truthy (norm (rowName r)) = true ->
  forallb asciiServerRow data = true ->
  existsb (normalizeThrows (aliases (setOverrideForRow i v st))) data = false ->
  data !! j = Some sr ->
  norm (nullish (srv_Name sr) (srv_input sr ≫= in_Name)) = norm (rowName r) ->
  Exists (fun c => matchesLearned v c = true) (default [] (srv_candidates sr)) ->
  exists r' top,
    rows (onChooseFile data (setOverrideForRow i v st)) !! j = Some r' /\
    topCandidate r' = Some top /\ matchesLearned v top = true /\
    length (default [] (row_candidates r'))
      = length (default [] (srv_candidates sr)).
Proof.
  intros Hv _ Hr Hn _ Hok Hj Hnm Hex.
  destruct (setOverrideForRow_set i v st Hv) as (_ & _ & Ha).
  rewrite Hr in Ha. cbn [mbind option_bind] in Ha. cbv zeta in Ha.
  rewrite Hn in Ha.
  rewrite (onChooseFile_rows _ _ Hok), Ha, list_lookup_fmap, list_lookup_imap, Hj.
  cbn.
  destruct (normalizeRow_fields (<[norm (rowName r) := v]> (aliases st)) j sr)
    as (_ & _ & H3 & _).
  rewrite Hnm, lookup_insert_eq in H3.
  destruct (first_match (matchesLearned v) (default [] (srv_candidates sr)))
    as [(pre & hit & post & E & Hpre & Hhit) | Hmiss].
  - rewrite E, applyLearned_hit in H3 by assumption. cbn [fst] in H3.
    eexists _, (bumped hit). split; [reflexivity |].
    unfold topCandidate. rewrite H3, E. cbn.
    split; [reflexivity |]. split; [exact Hhit |].
    rewrite !length_app. cbn. lia.
  - exfalso. apply Exists_exists in Hex as (c & Hc & Hm).
    rewrite Forall_forall in Hmiss. rewrite (Hmiss c Hc) in Hm. discriminate.
Qed.

Lemma override_tops_next_preview_witness :
  (truthy "aple" = true /\ isASCII "aple" = true /\
   List.find (fun rr => (row_index rr =? 0)%nat) (rows exampleState) = Some appleRow /\
   truthy (norm (rowName appleRow)) = true /\
   forallb asciiServerRow [serverApple] = true /\
   existsb (normalizeThrows (aliases (setOverrideForRow 0 "aple" exampleState)))
     [serverApple] = false /\
   [serverApple] !! 0%nat = Some serverApple /\
   norm (nullish (srv_Name serverApple) (srv_input serverApple ≫= in_Name))
     = norm (rowName appleRow) /\
   Exists (fun c => matchesLearned "aple" c = true)
     (default [] (srv_candidates serverApple))) /\
  exists r' top,
    rows (onChooseFile [serverApple] (setOverrideForRow 0 "aple" exampleState))
      !! 0%nat = Some r' /\
    topCandidate r' = Some top /\ matchesLearned "aple" top = true /\
    length (default [] (row_candidates r'))
      = length (default [] (srv_candidates serverApple)).
Proof.
  assert (Hex : Exists (fun c => matchesLearned "aple" c = true)
                  (default [] (srv_candidates serverApple)))
    by (apply Exists_cons_tl, Exists_cons_hd; reflexivity).
  assert (Hok : existsb
            (normalizeThrows (aliases (setOverrideForRow 0 "aple" exampleState)))
            [serverApple] = false) by reflexivity.
  split; [repeat split; try exact Hex; exact Hok |].
  apply (override_tops_next_preview 0 "aple" exampleState appleRow
           [serverApple] 0 serverApple eq_refl eq_refl eq_refl eq_refl eq_refl
           Hok eq_refl eq_refl Hex).
Defined.

(** * Colours *)

(** X20. The score badge of the row drawer and the risk badge of the
    commit preview agree: a change whose score is a number gets the colour
    that the drawer shows for that score. *)
Theorem badge_colours_agree (s : float) (source : option string) :
  CommitPreview.colorScheme (riskOf (Some s) source) = RowDrawer.colorScheme s.
Proof.
  unfold CommitPreview.colorScheme, RowDrawer.colorScheme, riskOf.
  destruct (geb s 0.85); [reflexivity |]. now destruct (geb s 0.6).
Qed.

(** * The alias bonus and the risk tiers *)

Section RoundingBelow.

Local Open Scope Z_scope.

Lemma digits2_pos_le (m : positive) (k : Z) :
  0 <= k -> Z.pos m < 2 ^ k -> Z.pos (digits2_pos m) <= k.
Proof.
  intros Hk Hm. pose proof (digits2_pos_bounds m) as [Hlo _].
  assert (H : 2 ^ (Z.pos (digits2_pos m) - 1) < 2 ^ k) by lia.
  apply Z.pow_lt_mono_r_iff in H; lia.
Qed.

(** What [shr_fexp] leaves of a positive mantissa: it drops the digits
    beyond the 53rd, if any. *)
Lemma shr_fexp_bounds (m e : Z) (l : location) :
  0 < m -> -1074 <= e ->
  exists m1 q,
    shr_m (fst (shr_fexp prec emax m e l)) = m1 /\
    snd (shr_fexp prec emax m e l) = e + q /\
    0 <= q /\ 0 < m1 < 2 ^ 53 /\
    m1 * 2 ^ q <= m < (m1 + 1) * 2 ^ q /\
    (0 < q -> 2 ^ 52 <= m1 /\ q = Zdigits2 m - 53).
Proof.
  intros Hm He. unfold shr_fexp, shr.
  destruct m as [| p | p]; try lia. cbn [Zdigits2].
  pose proof (digits2_pos_bounds p) as [Hlo Hhi].
  set (d := Z.pos (digits2_pos p)) in *.
  assert (Hd : 1 <= d) by (unfold d; lia).
  unfold fexp, SpecFloat.emin, prec, emax.
  destruct (Z.max (d + e - 53) (3 - 1024 - 53) - e) as [| q | q] eqn:Hn;
    cbn [fst snd].
  - exists (Z.pos p), 0. rewrite shr_record_of_loc_m, Z.add_0_r.
    assert (Hp : Z.pos p < 2 ^ 53)
      by (eapply Z.lt_le_trans; [exact Hhi | apply Z.pow_le_mono_r; lia]).
    cbn [Z.pow]. repeat split; lia.
  - assert (Hq : Z.pos q = d - 53) by lia.
    assert (Hpq : 0 < 2 ^ Z.pos q) by (apply Z.pow_pos_nonneg; lia).
    exists (Z.pos p / 2 ^ Z.pos q), (Z.pos q).
    rewrite iter_pos_shr_m by (rewrite shr_record_of_loc_m; lia).
    rewrite shr_record_of_loc_m.
    assert (Hlo' : 2 ^ 52 * 2 ^ Z.pos q <= Z.pos p).
    { rewrite <- Z.pow_add_r by lia.
      replace (52 + Z.pos q) with (d - 1) by lia. exact Hlo. }
    assert (Hhi' : Z.pos p < 2 ^ 53 * 2 ^ Z.pos q).
    { rewrite <- Z.pow_add_r by lia.
      replace (53 + Z.pos q) with d by lia. exact Hhi. }
    assert (H52 : 2 ^ 52 <= Z.pos p / 2 ^ Z.pos q)
      by (apply Z.div_le_lower_bound; lia).
    assert (H53 : Z.pos p / 2 ^ Z.pos q < 2 ^ 53)
      by (apply Z.div_lt_upper_bound; lia).
    pose proof (Z.mul_div_le (Z.pos p) (2 ^ Z.pos q) Hpq) as Hfl.
    pose proof (Z.mul_succ_div_gt (Z.pos p) (2 ^ Z.pos q) Hpq) as Hce.
    unfold Z.succ in Hce.
    repeat split; try lia.
  - exists (Z.pos p), 0. rewrite shr_record_of_loc_m, Z.add_0_r.
    assert (Hp : Z.pos p < 2 ^ 53)
      by (eapply Z.lt_le_trans; [exact Hhi | apply Z.pow_le_mono_r; lia]).
    cbn [Z.pow]. repeat split; lia.
Qed.

Lemma round_nearest_even_bounds (m : Z) (l : location) :
  m <= round_nearest_even m l <= m + 1.
Proof.
  destruct l as [| []]; cbn [round_nearest_even]; try destruct (Z.even m); lia.
Qed.

(** Rounding a positive number yields an infinity or a number that is
    less than the number rounded by at most one part in [2^52]. *)
Lemma binary_round_aux_lower (m e : Z) (l : location) :
  0 < m -> -1074 <= e ->
  binary_round_aux prec emax false m e l = S754_infinity false \/
  exists m' e',
    binary_round_aux prec emax false m e l = S754_finite false m' e' /\
    (2 ^ 52 - 1) * (m * 2 ^ (e + 1074)) <= 2 ^ 52 * magnitude m' e'.
Proof.
  intros Hm He. unfold binary_round_aux.
  destruct (shr_fexp_bounds m e l Hm He)
    as (m1 & q1 & E1 & F1 & Hq1 & Hm1 & Hb1 & Hn1).
  destruct (shr_fexp prec emax m e l) as [mrs1 e1]. cbn [fst snd] in E1, F1.
  rewrite E1.
  pose proof (round_nearest_even_bounds m1 (loc_of_shr_record mrs1)) as Hr.
  set (m2 := round_nearest_even m1 (loc_of_shr_record mrs1)) in *.
  destruct (shr_fexp_bounds m2 e1 loc_Exact ltac:(lia) ltac:(lia))
    as (m3 & q2 & E2 & F2 & Hq2 & Hm3 & Hb2 & Hn2).
  destruct (shr_fexp prec emax m2 e1 loc_Exact) as [mrs2 e2].
  cbn [fst snd] in E2, F2. rewrite E2.
  destruct m3 as [| m' | m']; try lia.
  destruct (e2 <=? emax - prec); [right | now left].
  exists m', e2. split; [reflexivity |]. unfold magnitude.
  (* the second shift, if any, is by one digit and drops nothing *)
  assert (Hq2' : q2 = 0 \/ q2 = 1).
  { destruct (Z.eq_dec q2 0) as [| Hne]; [now left | right].
    destruct (Hn2 ltac:(lia)) as [_ Hd].
    destruct m2 as [| p2 | p2]; try lia. cbn [Zdigits2] in Hd.
    assert (Z.pos (digits2_pos p2) <= 54)
      by (apply digits2_pos_le; [lia |];
          assert (2 ^ 53 < 2 ^ 54) by (apply Z.pow_lt_mono_r; lia); lia).
    lia. }
  assert (H31 : m1 <= Z.pos m' * 2 ^ q2).
  { destruct Hq2' as [-> | ->]; cbn [Z.pow Z.pow_pos Pos.iter] in *; lia. }
  (* the first shift drops less than one part in 2^52 *)
  assert (H1 : (2 ^ 52 - 1) * m <= 2 ^ 52 * (m1 * 2 ^ q1)).
  { destruct (Z.eq_dec q1 0) as [-> | Hne].
    - cbn [Z.pow] in *. lia.
    - destruct (Hn1 ltac:(lia)) as [H52 _].
      assert (Hp : 0 < 2 ^ q1) by (apply Z.pow_pos_nonneg; lia).
      assert (HQ : 2 ^ 52 * 2 ^ q1 <= m1 * 2 ^ q1)
        by (apply Z.mul_le_mono_nonneg_r; lia).
      rewrite Z.mul_add_distr_r in Hb1.
      revert Hb1 HQ Hp. generalize (m1 * 2 ^ q1) (2 ^ q1). intros Q P.
      change (2 ^ 52) with 4503599627370496. lia. }
  replace (e2 + 1074) with (q2 + (q1 + (e + 1074))) by lia.
  rewrite (Z.pow_add_r 2 q2 (q1 + (e + 1074))) by lia.
  rewrite (Z.pow_add_r 2 q1 (e + 1074)) by lia.
  assert (Hpe : 0 < 2 ^ (e + 1074)) by (apply Z.pow_pos_nonneg; lia).
  assert (Hp1 : 0 < 2 ^ q1) by (apply Z.pow_pos_nonneg; lia).
  assert (H2 : m1 * 2 ^ q1 <= Z.pos m' * 2 ^ q2 * 2 ^ q1)
    by (apply Z.mul_le_mono_nonneg_r; lia).
  assert (H3 : (2 ^ 52 - 1) * m <= 2 ^ 52 * (Z.pos m' * 2 ^ q2 * 2 ^ q1)) by lia.
  replace ((2 ^ 52 - 1) * (m * 2 ^ (e + 1074)))
    with ((2 ^ 52 - 1) * m * 2 ^ (e + 1074)) by ring.
  replace (2 ^ 52 * (Z.pos m' * (2 ^ q2 * (2 ^ q1 * 2 ^ (e + 1074)))))
    with (2 ^ 52 * (Z.pos m' * 2 ^ q2 * 2 ^ q1) * 2 ^ (e + 1074)) by ring.
  apply Z.mul_le_mono_nonneg_r; lia.
Qed.

Lemma shl_align_both (m : positive) (e e' : Z) :
  -1074 <= e -> -1074 <= e' ->
  Z.pos (fst (shl_align m e e')) * 2 ^ (snd (shl_align m e e') + 1074)
    = Z.pos m * 2 ^ (e + 1074) /\
  -1074 <= snd (shl_align m e e').
Proof.
  intros He He'. unfold shl_align.
  destruct (e' - e) as [| d | d] eqn:Hd; cbn [fst snd]; try (split; [reflexivity | lia]).
  split; [| lia].
  change (Pos.iter xO m d) with (shift_pos d m).
  rewrite shift_pos_correct, Z.pow_pos_fold.
  replace (e + 1074) with (Z.pos d + (e' + 1074)) by lia.
  rewrite (Z.pow_add_r 2 (Z.pos d)) by lia. ring.
Qed.

Lemma binary_round_lower (m : positive) (e : Z) :
  -1074 <= e ->
  binary_round prec emax false m e = S754_infinity false \/
  exists m' e',
    binary_round prec emax false m e = S754_finite false m' e' /\
    (2 ^ 52 - 1) * (Z.pos m * 2 ^ (e + 1074)) <= 2 ^ 52 * magnitude m' e'.
Proof.
  intros He. unfold binary_round.
  set (e0 := fexp prec emax (Z.pos (digits2_pos m) + e)).
  assert (He0 : -1074 <= e0)
    by (unfold e0, fexp, SpecFloat.emin, prec, emax; lia).
  destruct (shl_align_both m e e0 He He0) as [Hv Hs].
  destruct (shl_align m e e0) as [mz ez]. cbn [fst snd] in Hv, Hs.
  rewrite <- Hv. apply binary_round_aux_lower; lia.
Qed.

Lemma SFvalue_le_inf (x : spec_float) :
  valid_binary x = true -> SFvalue x <= infValue.
Proof.
  assert (Hinf : 0 < infValue) by (unfold infValue; apply Z.pow_pos_nonneg; lia).
  destruct x as [s | s | | s m e]; cbn [valid_binary SFvalue]; intros V; try lia.
  - destruct s; cbn; lia.
  - pose proof (magnitude_lt_inf _ _ V).
    pose proof (magnitude_pos m e ltac:(pose proof (bounded_inv _ _ V); lia)).
    destruct s; cbn; lia.
Qed.

(** A number at or above a threshold stays there when the bonus is added,
    for thresholds from zero up to what one part in [2^52] of the sum
    could be. *)
Lemma add_bonus_ge (T s : float) :
  0 <= value T -> value T <= value 0.05 * (2 ^ 52 - 1) ->
  PrimFloat.leb T s = true -> PrimFloat.leb T (s + 0.05) = true.
Proof.
  intros HT Hmargin (NT & Ns & Hle)%leb_le.
  pose proof (add_bonus_notNaN s Ns) as Nadd.
  rewrite leb_value by assumption. apply Z.leb_le.
  pose proof (SFvalue_le_inf _ (Prim2SF_valid T)) as HTinf. fold (value T) in HTinf.
  unfold value in Hle |- *. rewrite add_spec.
  change (value 0.05) with (magnitude 7205759403792794 (-57)) in Hmargin.
  change (Prim2SF 0.05) with (S754_finite false 7205759403792794 (-57)).
  pose proof (Prim2SF_valid s) as V.
  assert (Hc : 0 < magnitude 7205759403792794 (-57)) by (apply magnitude_pos; lia).
  fold (value T) in Hle |- *.
  destruct (Prim2SF s) as [sx | sx | | sx mx ex];
    unfold SF64add; cbn [SFadd SFvalue] in *.
  - cbn [cond_Zopp]. change (2 ^ 52 - 1) with 4503599627370495 in Hmargin. lia.
  - destruct sx; cbn [cond_Zopp] in *; [| lia].
    assert (0 < infValue) by (unfold infValue; apply Z.pow_pos_nonneg; lia). lia.
  - apply is_nan_Prim2SF in Ns. lia.
  - cbn [valid_binary] in V. destruct (bounded_inv _ _ V) as (He & _).
    pose proof (magnitude_pos mx ex ltac:(lia)) as Hx.
    destruct sx; cbn [cond_Zopp] in Hle; [lia |].
    set (ez := Z.min ex (-57)).
    pose proof (shl_align_value mx ex ez ltac:(unfold ez; lia)) as Hax.
    pose proof (shl_align_value 7205759403792794 (-57) ez ltac:(unfold ez; lia)) as Hac.
    cbn [cond_Zopp].
    set (ax := fst (shl_align mx ex ez)) in *.
    set (ac := fst (shl_align 7205759403792794 (-57) ez)) in *.
    change (Z.pos ax + Z.pos ac) with (Z.pos (ax + ac)).
    cbn [binary_normalize].
    assert (Hsum : Z.pos (ax + ac) * 2 ^ (ez + 1074)
                   = magnitude mx ex + magnitude 7205759403792794 (-57))
      by (rewrite Pos2Z.inj_add, Z.mul_add_distr_r; lia).
    destruct (binary_round_lower (ax + ac) ez ltac:(unfold ez; lia))
      as [-> | (m' & e' & -> & Hlow)]; cbn [SFvalue cond_Zopp]; [exact HTinf |].
    rewrite Hsum in Hlow.
    change (2 ^ 52) with 4503599627370496 in *. lia.
Qed.

End RoundingBelow.

Lemma Math_min_ge (T a b : float) :
  PrimFloat.leb T a = true -> PrimFloat.leb T b = true ->
  PrimFloat.leb T (Math_min a b) = true.
Proof.
  intros Ha Hb. unfold Math_min.
  destruct (leb_le _ _ Ha) as (_ & Na & _), (leb_le _ _ Hb) as (_ & Nb & _).
  rewrite Na, Nb. cbn [orb].
  destruct (PrimFloat.ltb a b); [exact Ha |].
  destruct (PrimFloat.ltb b a); [exact Hb |].
  destruct (PrimFloat.get_sign a); assumption.
Qed.

Lemma bumped_score_ge (T s : float) :
  (0 <=? value T)%Z = true ->
  (value T <=? value 0.05 * (2 ^ 52 - 1))%Z = true ->
  PrimFloat.leb T 0.999 = true ->
  PrimFloat.leb T s = true ->
  PrimFloat.leb T (Math_min (s + 0.05) 0.999) = true.
Proof.
  intros H0%Z.leb_le Hm%Z.leb_le Hcap Hs.
  apply Math_min_ge; [apply add_bonus_ge |]; assumption.
Qed.

(** X21. The alias boost never moves a candidate to a more severe risk
    tier: the tier of [Math.min(score + 0.05, 0.999)], with the addition
    rounded as binary64 rounds it, is at most as severe as the tier of
    [score], and a candidate without a numeric score stays HIGH. *)
Theorem bumped_risk (c : Candidate) :
  (rk (riskOf (cand_score (bumped c)) (cand_source (bumped c)))
   <= rk (riskOf (cand_score c) (cand_source c)))%Z /\
  (cand_score c = None ->
   riskOf (cand_score (bumped c)) (cand_source (bumped c)) = HIGH).
Proof.
  unfold bumped. cbn [cand_score cand_source].
  destruct (cand_score c) as [s |]; [| split; [cbn; lia | reflexivity]].
  split; [| discriminate].
  unfold riskOf, geb.
  destruct (PrimFloat.leb 0.85 s) eqn:E85.
  - rewrite (bumped_score_ge 0.85 s); [cbn; lia | reflexivity .. | exact E85].
  - destruct (PrimFloat.leb 0.6 s) eqn:E6.
    + pose proof (bumped_score_ge 0.6 s eq_refl eq_refl eq_refl E6) as H6.
      rewrite H6.
      destruct (PrimFloat.leb 0.85 (Math_min (s + 0.05) 0.999)); cbn; lia.
    + destruct (PrimFloat.leb 0.85 (Math_min (s + 0.05) 0.999)); [cbn; lia |].
      destruct (PrimFloat.leb 0.6 (Math_min (s + 0.05) 0.999)); cbn; lia.
Qed.
